(** * Universal Orlando entertainment schedule collector

    A shallow embedding of the pure core of
    [collect-universal-entertainment.js]: the bounded key search
    ([findValueByKey]), the calendar locator ([findCalendarConfig]), the
    block decoder ([extractBlockInfo]), the calendar expansion
    ([parseCalendarConfig]), the closure detector
    ([checkTemporarilyClosed]), the status rule of [processShow] and the
    snapshot differ ([detectChanges]).

    JavaScript values are the values [JSON.parse] can build, plus
    [undefined] for absent properties.  A [TypeError] raised by a property
    read on [null]/[undefined], by calling a missing method or by iterating
    a non-iterable is an explicit outcome.  Console output is not
    modelled; the diagnostic code that produces it is, for the errors it
    can raise.  Fetching and persistence are outside the core. *)

From Stdlib Require Import QArith Ascii String.
From stdpp Require Import gmap strings list fin_maps sorting.

Local Open Scope string_scope.
Local Open Scope list_scope.

(** ** JavaScript values *)

(** A parsed JSON document.  An object is the list of its own enumerable
    properties in [Object.keys] order (property names are distinct in a
    real object); a number is a finite rational, of which the program only
    observes whether it is zero and whether it equals another. *)
#[local] Unset Elimination Schemes.
Inductive json : Type :=
| JNull
| JBool (b : bool)
| JNum (q : Q)
| JStr (s : string)
| JArr (items : list json)
| JObj (entries : list (string * json)).
#[local] Set Elimination Schemes.

(** [None] is JavaScript's [undefined]. *)
Definition value : Type := option json.
Definition undefined : value := None.

(** Structural induction through arrays and objects. *)
Section JsonInduction.
Variable P : json → Prop.
Hypothesis Hnull : P JNull.
Hypothesis Hbool : ∀ b, P (JBool b).
Hypothesis Hnum : ∀ q, P (JNum q).
Hypothesis Hstr : ∀ s, P (JStr s).
Hypothesis Harr : ∀ items, Forall P items → P (JArr items).
Hypothesis Hobj : ∀ entries, Forall (λ kv, P kv.2) entries → P (JObj entries).

Fixpoint json_nested_ind (j : json) : P j :=
  match j with
  | JNull => Hnull
  | JBool b => Hbool b
  | JNum q => Hnum q
  | JStr s => Hstr s
  | JArr items =>
      Harr items
        ((fix go (l : list json) : Forall P l :=
            match l with
            | [] => @List.Forall_nil _ P
            | x :: l' => @List.Forall_cons _ P x l' (json_nested_ind x) (go l')
            end) items)
  | JObj entries =>
      Hobj entries
        ((fix go (l : list (string * json)) : Forall (λ kv, P kv.2) l :=
            match l with
            | [] => @List.Forall_nil _ _
            | kv :: l' => @List.Forall_cons _ (λ kv, P kv.2) kv l' (json_nested_ind kv.2) (go l')
            end) entries)
  end.
End JsonInduction.

(** [!!v] of JavaScript: [undefined], [null], [false], [0] and the empty
    string are falsy. *)
Definition truthy_json (j : json) : bool :=
  match j with
  | JNull => false
  | JBool b => b
  | JNum q => negb (Qnum q =? 0)%Z
  | JStr s => negb (String.eqb s "")
  | JArr _ | JObj _ => true
  end.

Definition truthy (v : value) : bool :=
  match v with
  | None => false
  | Some j => truthy_json j
  end.

(** [v === null] for a value that is never [undefined]. *)
Definition is_null (j : json) : bool :=
  match j with JNull => true | _ => false end.

(** [v == null]: [null] or [undefined]. *)
Definition nullish (v : value) : bool :=
  match v with
  | None | Some JNull => true
  | _ => false
  end.

(** [typeof v === 'string'] *)
Definition is_string (j : json) : bool :=
  match j with JStr _ => true | _ => false end.

(** [a || b] when [b] is a literal: the left operand if truthy. *)
Definition or_default (v : value) (d : json) : json :=
  match v with
  | Some j => if truthy_json j then j else d
  | None => d
  end.

(** [a || b] on values. *)
Definition or_else (a b : value) : value :=
  if truthy a then a else b.

(** ** Strings

    A string is its sequence of characters.  Case folding acts on the
    letters [A]-[Z], the only ones that can fold onto the two searched
    texts, "disabled" and "temporarily closed". *)

Definition lower_ascii (c : ascii) : ascii :=
  let n := Ascii.nat_of_ascii c in
  if (65 <=? n)%nat && (n <=? 90)%nat then Ascii.ascii_of_nat (n + 32) else c.

(** [s.toLowerCase()] *)
Fixpoint toLowerCase (s : string) : string :=
  match s with
  | EmptyString => EmptyString
  | String c s' => String (lower_ascii c) (toLowerCase s')
  end.

(** [s.includes(pat)] *)
Fixpoint includes (s pat : string) : bool :=
  if String.prefix pat s then true
  else match s with
       | EmptyString => false
       | String _ s' => includes s' pat
       end.

(** [s.split(sep)[0]]: the text before the first separator, the whole
    string when there is none. *)
Fixpoint split_head (sep : ascii) (s : string) : string :=
  match s with
  | EmptyString => EmptyString
  | String c s' => if Ascii.eqb c sep then EmptyString else String c (split_head sep s')
  end.

(** The one-character strings a [for...of] over a string yields. *)
Fixpoint chars (s : string) : list json :=
  match s with
  | EmptyString => []
  | String c s' => JStr (String c EmptyString) :: chars s'
  end.

(** ** Property reads *)

Fixpoint assoc (k : string) (entries : list (string * json)) : value :=
  match entries with
  | [] => None
  | (k', v) :: rest => if String.eqb k' k then Some v else assoc k rest
  end.

(** [j.k] / [j[k]] for a receiver that is neither [null] nor [undefined]
    and a property name [k] that is not an array index.  Arrays and strings
    own [length]; no name read by this program is inherited from a
    prototype. *)
Definition field (j : json) (k : string) : value :=
  match j with
  | JObj entries => assoc k entries
  | JArr items => if String.eqb k "length" then Some (JNum (inject_Z (Z.of_nat (length items)))) else None
  | JStr s => if String.eqb k "length" then Some (JNum (inject_Z (Z.of_nat (String.length s)))) else None
  | _ => None
  end.

(** [j[0]] for a receiver that is neither [null] nor [undefined]. *)
Definition index0 (j : json) : value :=
  match j with
  | JArr items => head items
  | JStr (String c _) => Some (JStr (String c EmptyString))
  | JObj entries => assoc "0" entries
  | _ => None
  end.

(** ** Outcomes: a returned value or a thrown exception *)

Inductive exn : Type := TypeError.

Inductive outcome (A : Type) : Type :=
| Ret (a : A)
| Throw (e : exn).
Arguments Ret {A} a.
Arguments Throw {A} e.

#[global] Instance outcome_ret : MRet outcome := λ A a, Ret a.
#[global] Instance outcome_bind : MBind outcome := λ A B f m,
  match m with
  | Ret a => f a
  | Throw e => Throw e
  end.

Definition returns {A} (m : outcome A) : Prop := ∃ a, m = Ret a.
Definition throws {A} (m : outcome A) : Prop := ∃ e, m = Throw e.

(** [v.k]: a [TypeError] on [null] and [undefined]. *)
Definition prop (v : value) (k : string) : outcome value :=
  match v with
  | None | Some JNull => Throw TypeError
  | Some j => Ret (field j k)
  end.

(** [v?.k] *)
Definition optchain (v : value) (k : string) : value :=
  match v with
  | None | Some JNull => undefined
  | Some j => field j k
  end.

(** [v?.[0]] *)
Definition optindex0 (v : value) : value :=
  match v with
  | None | Some JNull => undefined
  | Some j => index0 j
  end.

(** [for (const x of v)]: arrays and strings are iterable, everything else
    raises. *)
Definition iterate (j : json) : outcome (list json) :=
  match j with
  | JArr items => Ret items
  | JStr s => Ret (chars s)
  | _ => Throw TypeError
  end.

(** [v.toLowerCase()]: only strings have the method. *)
Definition call_toLowerCase (j : json) : outcome string :=
  match j with
  | JStr s => Ret (toLowerCase s)
  | _ => Throw TypeError
  end.

(** [v.split('T')[0]]: only strings have the method. *)
Definition call_split_T0 (j : json) : outcome string :=
  match j with
  | JStr s => Ret (split_head "T"%char s)
  | _ => Throw TypeError
  end.

(** [if (v) { ... v ... } else d]: the body sees a receiver that is
    neither [null] nor [undefined]. *)
Definition when_truthy {A} (v : value) (body : json → A) (d : A) : A :=
  match v with
  | Some j => if truthy_json j then body j else d
  | None => d
  end.

(** [a === b] on values that live in two separately parsed documents:
    primitives compare by value, arrays and objects by identity, which two
    such documents never share. *)
Definition strict_eq (a b : json) : bool :=
  match a, b with
  | JNull, JNull => true
  | JBool x, JBool y => Bool.eqb x y
  | JNum x, JNum y => Qeq_bool x y
  | JStr x, JStr y => String.eqb x y
  | _, _ => false
  end.

(** ** Value Locator: [findValueByKey] *)

(** [for (const item of obj) { r = f(item); if (r !== null) return r; }
    return null;] *)
Fixpoint first_non_null (f : json → json) (items : list json) : json :=
  match items with
  | [] => JNull
  | item :: rest =>
      let result := f item in
      if is_null result then first_non_null f rest else result
  end.

(** [for (const key of Object.keys(obj)) { if (key === targetKey) return
    obj[key]; r = f(obj[key]); if (r !== null) return r; } return null;] *)
Fixpoint first_match_or_non_null (targetKey : string) (f : json → json)
    (entries : list (string * json)) : json :=
  match entries with
  | [] => JNull
  | (key, v) :: rest =>
      if String.eqb key targetKey then v
      else let result := f v in
           if is_null result then first_match_or_non_null targetKey f rest else result
  end.

Definition maxDepth : nat := 10.

Fixpoint findValueByKey (obj : json) (targetKey : string) (depth : nat) : json :=
  if (maxDepth <? depth)%nat then JNull
  else match obj with
       | JArr items =>
           first_non_null (λ item, findValueByKey item targetKey (S depth)) items
       | JObj entries =>
           first_match_or_non_null targetKey
             (λ v, findValueByKey v targetKey (S depth)) entries
       | _ => JNull
       end.

(** ** Calendar locator: [findCalendarConfig] *)

Fixpoint first_truthy (f : json → json) (items : list json) : json :=
  match items with
  | [] => JNull
  | item :: rest =>
      let result := f item in
      if truthy_json result then result else first_truthy f rest
  end.

Definition skippedKeys : list string := ["MetadataFields"; "Categories"; "Multimedia"].

Fixpoint first_truthy_entry (f : json → json) (entries : list (string * json)) : json :=
  match entries with
  | [] => JNull
  | (key, v) :: rest =>
      if existsb (String.eqb key) skippedKeys then first_truthy_entry f rest
      else let result := f v in
           if truthy_json result then result else first_truthy_entry f rest
  end.

(** The two documented places of the calendar on one node, tried before
    its children. *)
Definition calendar_here (obj : json) (otherwise : json) : json :=
  when_truthy (field obj "calendarConfig") (λ c, c)
    (when_truthy (field obj "Fields")
       (λ fields, when_truthy (field fields "calendarConfig") (λ c, c) otherwise)
       otherwise).

Fixpoint findCalendarConfig (obj : json) (depth : nat) : json :=
  if (25 <? depth)%nat then JNull
  else match obj with
       | JArr items =>
           calendar_here obj
             (first_truthy (λ item, findCalendarConfig item (S depth)) items)
       | JObj entries =>
           calendar_here obj
             (first_truthy_entry (λ v, findCalendarConfig v (S depth)) entries)
       | _ => JNull
       end.

(** ** Closure detector: [checkTemporarilyClosed] *)

Fixpoint scan_features (features : list json) : outcome bool :=
  match features with
  | [] => Ret false
  | feature :: rest =>
      fields ← prop (Some feature) "Fields";
      let desc :=
        or_default (optindex0 (optchain (optchain fields "description") "Values")) (JStr "") in
      lowered ← call_toLowerCase desc;
      if includes lowered "temporarily closed" then Ret true else scan_features rest
  end.

Fixpoint scan_presentations (presentations : list json) : outcome bool :=
  match presentations with
  | [] => Ret false
  | cp :: rest =>
      component ← prop (Some cp) "Component";
      let features :=
        or_default
          (optchain (optchain (optchain component "Fields") "featureList") "LinkedComponentValues")
          (JArr []) in
      fs ← iterate features;
      found ← scan_features fs;
      if found : bool then Ret true else scan_presentations rest
  end.

(** The body of the [try] block. *)
Definition closed_scan (cmsData : json) : outcome bool :=
  cps ← prop (Some cmsData) "ComponentPresentations";
  ps ← iterate (or_default cps (JArr []));
  scan_presentations ps.

Definition checkTemporarilyClosed (cmsData : json) : bool :=
  match closed_scan cmsData with
  | Ret found => found
  | Throw _ => false
  end.

(** ** Block decoder: [extractBlockInfo] *)

Record BlockInfo : Type := { showTime : json; isTentative : bool }.

(** [o.Values?.[0] || o.Value || last] *)
Definition first_or_single (o : json) (last : json) : json :=
  or_default (or_else (optindex0 (field o "Values")) (field o "Value")) last.

(** [block.k || block.Fields?.k] *)
Definition direct_or_fields (block : json) (k : string) : outcome value :=
  direct ← prop (Some block) k;
  if truthy direct then Ret direct
  else fields ← prop (Some block) "Fields"; Ret (optchain fields k).

Definition is_Unknown (j : json) : bool :=
  match j with JStr s => String.eqb s "Unknown" | _ => false end.

Definition style_disabled (styleVal : json) : outcome bool :=
  lowered ← call_toLowerCase styleVal; Ret (includes lowered "disabled").

(** The documented shapes, read from the first entry only. *)
Definition fast_path (blockEntries : json) : outcome BlockInfo :=
  match blockEntries with
  | JArr (block :: _) =>
      eyebrowObj ← direct_or_fields block "eyebrow";
      let showTime :=
        when_truthy eyebrowObj (λ e, first_or_single e (JStr "Unknown")) (JStr "Unknown") in
      styleObj ← direct_or_fields block "style";
      isTentative ←
        when_truthy styleObj (λ s, style_disabled (first_or_single s (JStr ""))) (Ret false);
      Ret {| showTime := showTime; isTentative := isTentative |}
  | _ => Ret {| showTime := JStr "Unknown"; isTentative := false |}
  end.

Definition eyebrow_fallback (blockData : json) (showTime : json) : json :=
  if is_Unknown showTime then
    when_truthy (Some (findValueByKey blockData "eyebrow" 0))
      (λ e, first_or_single e (if is_string e then e else JStr "Unknown"))
      showTime
  else showTime.

Definition style_fallback (blockData : json) (isTentative : bool) : outcome bool :=
  if negb isTentative then
    when_truthy (Some (findValueByKey blockData "style" 0))
      (λ s, style_disabled (first_or_single s (if is_string s then s else JStr "")))
      (Ret isTentative)
  else Ret isTentative.

Definition extractBlockInfo (blockData : value) : outcome BlockInfo :=
  when_truthy blockData
    (λ bd,
       let blockEntries :=
         or_default
           (or_else (or_else (field bd "EmbeddedValues") (field bd "LinkedComponentValues"))
              (field bd "Values"))
           (JArr []) in
       fast ← fast_path blockEntries;
       let showTime := eyebrow_fallback bd (showTime fast) in
       isTentative ← style_fallback bd (isTentative fast);
       Ret {| showTime := showTime; isTentative := isTentative |})
    (Ret {| showTime := JStr "Unknown"; isTentative := false |}).

(** ** Calendar expansion: [parseCalendarConfig] *)

Record ScheduleRecord : Type := {
  schedule_date : string;
  show_time : json;
  status : string;
  is_available : bool
}.

(** [Object.keys(null)] raises; on anything else it returns. *)
Definition object_keys_ok (j : json) : outcome unit :=
  match j with
  | JNull => Throw TypeError
  | _ => Ret ()
  end.

(** The values [blockData[k]] for [k] in [Object.keys(blockData)]; the
    property names themselves only reach the log. *)
Definition own_values (j : json) : list json :=
  match j with
  | JObj entries => entries.*2
  | JArr items => items
  | JStr s => chars s
  | _ => []
  end.

(** One round of the diagnostic loop over the keys of [blockData]: it
    prints the keys of [val[0]] and of [val[0].Fields]. *)
Definition dump_value (val : json) : outcome unit :=
  match val with
  | JArr (first :: _) =>
      _ ← (match first with
           | JNull | JArr _ | JObj _ => object_keys_ok first
           | _ => Ret ()
           end);
      _ ← prop (Some first) "Fields";
      Ret ()
  | _ => Ret ()
  end.

Fixpoint dump_values (vals : list json) : outcome unit :=
  match vals with
  | [] => Ret ()
  | val :: rest => _ ← dump_value val; dump_values rest
  end.

(** The diagnostic block run for the first entry that has dates. *)
Definition debug_first_entry (entry : json) : outcome unit :=
  when_truthy (field entry "blockData") (λ bd, dump_values (own_values bd)) (Ret ()).

Definition status_of (isTentative : bool) : string :=
  if isTentative then "TENTATIVE" else "SCHEDULED".

Fixpoint records_for (info : BlockInfo) (dateTimeValues : list json)
    : outcome (list ScheduleRecord) :=
  match dateTimeValues with
  | [] => Ret []
  | dt :: rest =>
      dateStr ← call_split_T0 dt;
      more ← records_for info rest;
      Ret ({| schedule_date := dateStr;
              show_time := showTime info;
              status := status_of (isTentative info);
              is_available := negb (isTentative info) |} :: more)
  end.

(** [dateTimeValues.length === 0] *)
Definition length_is_zero (j : json) : bool :=
  match field j "length" with
  | Some (JNum q) => Qeq_bool q 0
  | _ => false
  end.

(** The loop over the entries, threading [debugged] and [schedules]. *)
Fixpoint parse_entries (entries : list json) (debugged : bool)
    (schedules : list ScheduleRecord) : outcome (list ScheduleRecord) :=
  match entries with
  | [] => Ret schedules
  | entry :: rest =>
      eventDates ← prop (Some entry) "eventDates";
      let dateTimeValues := or_default (optchain eventDates "DateTimeValues") (JArr []) in
      if length_is_zero dateTimeValues then parse_entries rest debugged schedules
      else
        _ ← (if debugged then Ret () else debug_first_entry entry);
        info ← extractBlockInfo (field entry "blockData");
        dts ← iterate dateTimeValues;
        recs ← records_for info dts;
        parse_entries rest true (schedules ++ recs)
  end.

Definition parseCalendarConfig (calendarConfig : json) : outcome (list ScheduleRecord) :=
  embedded ← prop (Some calendarConfig) "EmbeddedValues";
  let entries :=
    or_default
      (or_else (or_else embedded (field calendarConfig "LinkedComponentValues"))
         (field calendarConfig "Values"))
      (JArr []) in
  match entries with
  | JArr items => parse_entries items false []
  | _ => Ret []
  end.

(** ** Status rule of [processShow] *)

(** The diagnostic branch taken when no calendar was found and the show is
    not closed. *)
Fixpoint diagnose_presentations (presentations : list json) : outcome unit :=
  match presentations with
  | [] => Ret ()
  | cp :: rest => _ ← prop (Some cp) "Component"; diagnose_presentations rest
  end.

Definition diagnose (cmsData : json) : outcome unit :=
  cps ← prop (Some cmsData) "ComponentPresentations";
  ps ← iterate (or_default cps (JArr []));
  diagnose_presentations ps.

(** Steps 2 and 3: the closure flag and the extracted schedule. *)
Definition collect (cmsData : json) : outcome (bool * list ScheduleRecord) :=
  let isClosed := checkTemporarilyClosed cmsData in
  let calendarConfig := findCalendarConfig cmsData 0 in
  newSchedules ←
    (if truthy_json calendarConfig then parseCalendarConfig calendarConfig
     else if isClosed then Ret []
     else _ ← diagnose cmsData; Ret []);
  Ret (isClosed, newSchedules).

(** Step 4. *)
Definition currentStatus (isClosed : bool) (newSchedules : list ScheduleRecord) : string :=
  if isClosed then "TEMPORARILY_CLOSED"
  else if (0 <? length newSchedules)%nat then "ACTIVE"
  else "UNKNOWN".

Definition processShow_status (cmsData : json) : outcome string :=
  '(isClosed, newSchedules) ← collect cmsData;
  Ret (currentStatus isClosed newSchedules).

(** ** Snapshot differ: [detectChanges] *)

Record ShowConfig : Type := {
  show_id : option string;
  show_name : option string;
  park_name : option string;
  show_type : option string;
  cms_url : option string
}.

(** An object literal holding [show_time], [status] or both. *)
Record Snapshot : Type := {
  snap_show_time : option json;
  snap_status : option string
}.

(** The template of [change_description] with the values it interpolates. *)
Inductive Description : Type :=
| DateAdded (name : option string) (date : string) (time : json)
| TimeChanged (name : option string) (date : string) (old new : json)
| StatusChanged (name : option string) (date : string) (old new : string)
| DateRemoved (name : option string) (date : string) (was : json).

Record ChangeEvent : Type := {
  change_type : string;
  entity_id : option string;
  entity_name : option string;
  change_date : string;
  change_description : Description;
  old_value : option Snapshot;
  new_value : option Snapshot;
  severity : string
}.

Definition added (showConfig : ShowConfig) (newRec : ScheduleRecord) : ChangeEvent :=
  {| change_type := "ENTERTAINMENT";
     entity_id := show_id showConfig;
     entity_name := show_name showConfig;
     change_date := schedule_date newRec;
     change_description :=
       DateAdded (show_name showConfig) (schedule_date newRec) (show_time newRec);
     old_value := None;
     new_value := Some {| snap_show_time := Some (show_time newRec);
                          snap_status := Some (status newRec) |};
     severity := "LOW" |}.

Definition time_changed (showConfig : ShowConfig) (existing newRec : ScheduleRecord)
    : ChangeEvent :=
  {| change_type := "ENTERTAINMENT";
     entity_id := show_id showConfig;
     entity_name := show_name showConfig;
     change_date := schedule_date newRec;
     change_description :=
       TimeChanged (show_name showConfig) (schedule_date newRec)
         (show_time existing) (show_time newRec);
     old_value := Some {| snap_show_time := Some (show_time existing); snap_status := None |};
     new_value := Some {| snap_show_time := Some (show_time newRec); snap_status := None |};
     severity := "MEDIUM" |}.

Definition status_changed (showConfig : ShowConfig) (existing newRec : ScheduleRecord)
    : ChangeEvent :=
  {| change_type := "ENTERTAINMENT";
     entity_id := show_id showConfig;
     entity_name := show_name showConfig;
     change_date := schedule_date newRec;
     change_description :=
       StatusChanged (show_name showConfig) (schedule_date newRec)
         (status existing) (status newRec);
     old_value := Some {| snap_show_time := None; snap_status := Some (status existing) |};
     new_value := Some {| snap_show_time := None; snap_status := Some (status newRec) |};
     severity := "MEDIUM" |}.

Definition removed (showConfig : ShowConfig) (existing : ScheduleRecord) : ChangeEvent :=
  {| change_type := "ENTERTAINMENT";
     entity_id := show_id showConfig;
     entity_name := show_name showConfig;
     change_date := schedule_date existing;
     change_description :=
       DateRemoved (show_name showConfig) (schedule_date existing) (show_time existing);
     old_value := Some {| snap_show_time := Some (show_time existing);
                          snap_status := Some (status existing) |};
     new_value := None;
     severity := "HIGH" |}.

(** [if (cond) changes.push(ev)] *)
Definition push_if (cond : bool) (ev : ChangeEvent) (changes : list ChangeEvent)
    : list ChangeEvent :=
  if cond then changes ++ [ev] else changes.

(** The body of the loop over [newSchedules]. *)
Definition compare_new (showConfig : ShowConfig) (existingMap : gmap string ScheduleRecord)
    (changes : list ChangeEvent) (newRec : ScheduleRecord) : list ChangeEvent :=
  match existingMap !! schedule_date newRec with
  | None => changes ++ [added showConfig newRec]
  | Some existing =>
      push_if (negb (String.eqb (status existing) (status newRec)))
        (status_changed showConfig existing newRec)
        (push_if (negb (strict_eq (show_time existing) (show_time newRec)))
           (time_changed showConfig existing newRec) changes)
  end.

(** The body of the loop over [existingSchedules] that reports removals. *)
Definition compare_existing (showConfig : ShowConfig) (newDateSet : gset string)
    (changes : list ChangeEvent) (existing : ScheduleRecord) : list ChangeEvent :=
  push_if (negb (bool_decide (schedule_date existing ∈ newDateSet)))
    (removed showConfig existing) changes.

Definition detectChanges (showConfig : ShowConfig)
    (newSchedules existingSchedules : list ScheduleRecord) : list ChangeEvent :=
  let existingMap : gmap string ScheduleRecord :=
    foldl (λ m existing, <[schedule_date existing := existing]> m) ∅ existingSchedules in
  let changes := foldl (compare_new showConfig existingMap) [] newSchedules in
  let newDateSet : gset string := list_to_set (schedule_date <$> newSchedules) in
  foldl (compare_existing showConfig newDateSet) changes existingSchedules.

(** ** Upsert records and batches: steps 7 and 8 of [processShow] *)

Record UpsertRecord : Type := {
  up_show_id : option string;
  up_show_name : option string;
  up_park_name : option string;
  up_schedule_date : string;
  up_show_time : json;
  up_show_type : option string;
  up_status : string;
  up_is_available : bool;
  up_source_url : option string;
  up_collected_at : string;
  up_last_modified : string
}.

(** [newSchedules.map(s => ({...}))], [now] being the time stamp taken
    once before the map. *)
Definition upsert_records (showConfig : ShowConfig) (now : string)
    (newSchedules : list ScheduleRecord) : list UpsertRecord :=
  (λ s, {| up_show_id := show_id showConfig;
           up_show_name := show_name showConfig;
           up_park_name := park_name showConfig;
           up_schedule_date := schedule_date s;
           up_show_time := show_time s;
           up_show_type := show_type showConfig;
           up_status := status s;
           up_is_available := is_available s;
           up_source_url := cms_url showConfig;
           up_collected_at := now;
           up_last_modified := now |}) <$> newSchedules.

(** [records.slice(i, j)] for [i ≤ j]. *)
Definition slice {A} (i j : nat) (records : list A) : list A :=
  take (j - i) (drop i records).

Definition batchSize : nat := 100.

(** [for (let i = start; i < records.length; i += 100)
         upsertSchedules(records.slice(i, i + 100))]:
    the batches handed to [upsertSchedules], in order, as long as no call
    fails.  Every round moves [i] forward, so [length records] rounds are
    enough fuel. *)
Fixpoint batches_from {A} (fuel : nat) (i : nat) (records : list A) : list (list A) :=
  match fuel with
  | O => []
  | S fuel' =>
      if (i <? length records)%nat
      then slice i (i + batchSize) records :: batches_from fuel' (i + batchSize) records
      else []
  end.

Definition batches {A} (records : list A) : list (list A) :=
  batches_from (length records) 0 records.

(** ** Next and last date: step 10 of [processShow] *)

(** [a <= b] on strings: lexicographic on the character codes. *)
Definition str_le (a b : string) : Prop := String.leb a b = true.

#[global] Instance str_le_dec a b : Decision (str_le a b).
Proof. unfold str_le. apply _. Defined.

(** [newSchedules.map(s => s.schedule_date).filter(d => d >= today).sort()],
    [today] being the current calendar date.  The default [sort] orders
    strings by their character codes; the sorted arrangement of a list of
    strings is unique, whatever the algorithm. *)
Definition futureDates (today : string) (newSchedules : list ScheduleRecord) : list string :=
  merge_sort str_le (filter (str_le today) (schedule_date <$> newSchedules)).

(** [d || null] for an array element [d]: absent and empty strings give
    [null]. *)
Definition or_null (d : option string) : option string :=
  match d with
  | Some s => if String.eqb s "" then None else Some s
  | None => None
  end.

Definition next_scheduled_date (today : string) (newSchedules : list ScheduleRecord)
    : option string :=
  or_null (head (futureDates today newSchedules)).

Definition last_scheduled_date (today : string) (newSchedules : list ScheduleRecord)
    : option string :=
  or_null (last (futureDates today newSchedules)).

(** * Specification vocabulary

    The notions the stated properties speak of, defined on the data alone,
    and the sample documents they are evaluated on. *)

(** ** Value Locator *)

(** Every value held under [targetKey] by a mapping nested at most
    [maxDepth] levels below the root, in depth-first order: sequence
    elements by index, mapping entries in key order, a key before the
    subtree of its value. *)
Fixpoint occurrences (obj : json) (targetKey : string) (depth : nat) : list json :=
  if (maxDepth <? depth)%nat then []
  else match obj with
       | JArr items => flat_map (λ item, occurrences item targetKey (S depth)) items
       | JObj entries =>
           flat_map
             (λ kv, ((if String.eqb kv.1 targetKey then [kv.2] else [])
                       ++ occurrences kv.2 targetKey (S depth))%list)
             entries
       | _ => []
       end.

(** The reading "the first value found under the key": the head of the
    occurrences, whatever it is. *)
Definition first_occurrence (obj : json) (targetKey : string) : option json :=
  head (occurrences obj targetKey 0).

(** The reading "null occurrences are skipped and the traversal goes on":
    the first occurrence that is not [null]. *)
Definition first_non_null_occurrence (obj : json) (targetKey : string) : option json :=
  head (filter (λ v, is_null v = false) (occurrences obj targetKey 0)).

Definition null_then_value : json :=
  JArr [JObj [("a", JNull)]; JObj [("a", JNum 1)]].

Definition null_beside_value : json :=
  JObj [("a", JNull); ("b", JObj [("a", JNum 1)])].

(** [j] inside [n] nested one-element sequences. *)
Fixpoint wrapped (n : nat) (j : json) : json :=
  match n with
  | O => j
  | S n' => JArr [wrapped n' j]
  end.

(** ** Closure detector *)

(** What a [for...of] visits; nothing for a value that cannot be iterated. *)
Definition elements (j : json) : list json :=
  match j with
  | JArr items => items
  | JStr s => chars s
  | _ => []
  end.

Definition iterable (j : json) : bool :=
  match j with
  | JArr _ | JStr _ => true
  | _ => false
  end.

(** The component presentations of a document, the features a presentation
    links to and the description of a feature, absent parts read as
    empty. *)
Definition presentations_json (doc : json) : json :=
  or_default (optchain (Some doc) "ComponentPresentations") (JArr []).

Definition features_json (cp : json) : json :=
  or_default
    (optchain (optchain (optchain (optchain (Some cp) "Component") "Fields") "featureList")
       "LinkedComponentValues")
    (JArr []).

Definition description_of (feature : json) : json :=
  or_default
    (optindex0 (optchain (optchain (optchain (Some feature) "Fields") "description") "Values"))
    (JStr "").

Definition mentions_closure (feature : json) : bool :=
  match description_of feature with
  | JStr s => includes (toLowerCase s) "temporarily closed"
  | _ => false
  end.

(** Some feature description text in the component presentations contains
    "temporarily closed", case-insensitively. *)
Definition has_closure_marker (doc : json) : bool :=
  existsb (λ cp, existsb mentions_closure (elements (features_json cp)))
    (elements (presentations_json doc)).

(** A document whose scan meets no traversal error: no [null] where an
    object is read, lists where lists are iterated, text where text is
    lowered. *)
Definition feature_ok (feature : json) : bool :=
  negb (is_null feature) && is_string (description_of feature).

Definition presentation_ok (cp : json) : bool :=
  negb (is_null cp) && iterable (features_json cp)
  && forallb feature_ok (elements (features_json cp)).

Definition traversable (doc : json) : bool :=
  negb (is_null doc) && iterable (presentations_json doc)
  && forallb presentation_ok (elements (presentations_json doc)).

Definition strings (l : list string) : json := JObj [("Values", JArr (JStr <$> l))].

(** A presentation whose only feature carries the given description. *)
Definition presentation_described (text : string) : json :=
  JObj [("Component",
         JObj [("Fields",
                JObj [("featureList",
                       JObj [("LinkedComponentValues",
                              JArr [JObj [("Fields",
                                          JObj [("description", strings [text])])]])])])])].

Definition closure_after_null : json :=
  JObj [("ComponentPresentations",
         JArr [JNull; presentation_described "Temporarily Closed"])].

(** ** Snapshot differ *)

Inductive Kind : Type := ADD | CHANGE | REMOVE.

(** The kind of an event, read off the description it was built with. *)
Definition kind_of (ev : ChangeEvent) : Kind :=
  match change_description ev with
  | DateAdded _ _ _ => ADD
  | TimeChanged _ _ _ _ | StatusChanged _ _ _ _ => CHANGE
  | DateRemoved _ _ _ => REMOVE
  end.

(** The prior record at a date. *)
Definition prior_at (priorRecords : list ScheduleRecord) (date : string)
    : option ScheduleRecord :=
  List.find (λ existing, String.eqb (schedule_date existing) date) priorRecords.

(** The events one new record gives rise to. *)
Definition events_for_new (showConfig : ShowConfig) (priorRecords : list ScheduleRecord)
    (newRec : ScheduleRecord) : list ChangeEvent :=
  match prior_at priorRecords (schedule_date newRec) with
  | None => [added showConfig newRec]
  | Some existing =>
      (if strict_eq (show_time existing) (show_time newRec) then []
       else [time_changed showConfig existing newRec])
      ++ (if String.eqb (status existing) (status newRec) then []
          else [status_changed showConfig existing newRec])
  end.

(** The event one prior record gives rise to. *)
Definition events_for_prior (showConfig : ShowConfig) (newRecords : list ScheduleRecord)
    (existing : ScheduleRecord) : list ChangeEvent :=
  if existsb (λ newRec, String.eqb (schedule_date newRec) (schedule_date existing)) newRecords
  then []
  else [removed showConfig existing].

Definition both (showTime : json) (st : string) : Snapshot :=
  {| snap_show_time := Some showTime; snap_status := Some st |}.

Definition only_show_time (showTime : json) : Snapshot :=
  {| snap_show_time := Some showTime; snap_status := None |}.

Definition only_status (st : string) : Snapshot :=
  {| snap_show_time := None; snap_status := Some st |}.

Definition sample_show : ShowConfig :=
  {| show_id := Some "universal-studios-cinesational";
     show_name := Some "CineSational: A Symphonic Spectacular";
     park_name := Some "Universal Studios Florida";
     show_type := Some "NIGHTTIME_SHOW";
     cms_url := None |}.

Definition scheduled (date time : string) : ScheduleRecord :=
  {| schedule_date := date; show_time := JStr time;
     status := "SCHEDULED"; is_available := true |}.

Definition tentative (date time : string) : ScheduleRecord :=
  {| schedule_date := date; show_time := JStr time;
     status := "TENTATIVE"; is_available := false |}.

Definition sample_new : list ScheduleRecord :=
  [tentative "2026-01-05" "8:30 PM"; scheduled "2026-01-06" "9:00 PM"].

Definition sample_prior : list ScheduleRecord :=
  [scheduled "2026-01-07" "8:00 PM"; scheduled "2026-01-05" "8:00 PM"].

(** ** Status rule *)

Definition sample_calendar : json :=
  JObj [("EmbeddedValues",
         JArr [JObj [("eventDates",
                      JObj [("DateTimeValues",
                             JArr [JStr "2026-01-05T00:00:00"; JStr "2026-01-06T00:00:00"])]);
                     ("blockData",
                      JObj [("EmbeddedValues",
                             JArr [JObj [("eyebrow", strings ["8:30 PM"]);
                                         ("style", strings ["Active Style"])]])])]])].

Definition closed_with_calendar : json :=
  JObj [("ComponentPresentations", JArr [presentation_described "Temporarily closed"]);
        ("calendarConfig", sample_calendar)].

(** ** Block decoder *)

(** The entry list of a node, under the first of the three alias keys
    that holds something. *)
Definition entries_of (node : json) : json :=
  or_default
    (or_else (or_else (field node "EmbeddedValues") (field node "LinkedComponentValues"))
       (field node "Values"))
    (JArr []).

Definition first_entry (node : json) : option json :=
  match entries_of node with
  | JArr (block :: _) => Some block
  | _ => None
  end.

(** The field [k] of the first entry, directly on it or under its [Fields]
    wrapper. *)
Definition fast_field (block : json) (k : string) : value :=
  or_else (field block k) (optchain (field block "Fields") k).

(** The style text the fast path reads, if the first entry has a style. *)
Definition fast_style_value (block : json) : option json :=
  when_truthy (fast_field block "style") (λ s, Some (first_or_single s (JStr ""))) None.

(** The style text the deep search reads, if it locates a style. *)
Definition deep_style_value (slot : json) : option json :=
  when_truthy (Some (findValueByKey slot "style" 0))
    (λ s, Some (first_or_single s (if is_string s then s else JStr "")))
    None.

Definition says_disabled (styleVal : option json) : bool :=
  match styleVal with
  | Some (JStr s) => includes (toLowerCase s) "disabled"
  | _ => false
  end.

(** A style value that can be lowered: none at all, or a string. *)
Definition is_text (styleVal : option json) : bool :=
  match styleVal with
  | Some (JStr _) | None => true
  | _ => false
  end.

(** The label the fast path reads on the first entry. *)
Definition fast_label (block : json) : json :=
  when_truthy (fast_field block "eyebrow") (λ e, first_or_single e (JStr "Unknown"))
    (JStr "Unknown").

(** The slots the decoder returns on: the first entry, if any, is not
    [null], the style it carries, if any, is text, and so is the style the
    deep search locates, if it is run and locates one. *)
Definition block_safe (blockData : value) : bool :=
  when_truthy blockData
    (λ slot,
       match first_entry slot with
       | Some block =>
           negb (is_null block) && is_text (fast_style_value block)
           && (says_disabled (fast_style_value block) || is_text (deep_style_value slot))
       | None => is_text (deep_style_value slot)
       end)
    true.

Definition style_decoy : json :=
  JObj [("style", strings ["Disabled Style"]);
        ("EmbeddedValues",
         JArr [JObj [("eyebrow", strings ["8:30 PM"]);
                     ("style", strings ["Active Style"])]])].

Definition tentative_despite_bad_style : json :=
  JObj [("style", JObj [("Values", JArr [JNum 5])]);
        ("EmbeddedValues", JArr [JObj [("style", strings ["Disabled Style"])]])].

(** ** Calendar expansion *)

(** The date-time list of an entry, empty when absent. *)
Definition dates_json (entry : json) : json :=
  or_default (optchain (optchain (Some entry) "eventDates") "DateTimeValues") (JArr []).

Definition has_dates (entry : json) : bool := negb (length_is_zero (dates_json entry)).

(** The calendar-date portion of a date-time string: the text before the
    first ['T']. *)
Definition date_part (dt : json) : string :=
  match dt with
  | JStr s => split_head "T"%char s
  | _ => ""
  end.

(** The block an entry decodes to. *)
Definition decoded (entry : json) : BlockInfo :=
  match extractBlockInfo (field entry "blockData") with
  | Ret info => info
  | Throw _ => {| showTime := JStr "Unknown"; isTentative := false |}
  end.

Definition record_of (info : BlockInfo) (dt : json) : ScheduleRecord :=
  {| schedule_date := date_part dt;
     show_time := showTime info;
     status := status_of (isTentative info);
     is_available := negb (isTentative info) |}.

(** The records of one entry: none without dates, otherwise one per
    date-time string, all with the decoded label and status. *)
Definition expand_entry (entry : json) : list ScheduleRecord :=
  if has_dates entry then record_of (decoded entry) <$> elements (dates_json entry)
  else [].

Definition calendar_entries (calendarConfig : json) : list json :=
  match entries_of calendarConfig with
  | JArr items => items
  | _ => []
  end.

(** Entry order, then date order within an entry. *)
Definition expected_records (calendarConfig : json) : list ScheduleRecord :=
  flat_map expand_entry (calendar_entries calendarConfig).

(** The date portions the calendar lists, entry by entry. *)
Definition listed_dates (calendarConfig : json) : list string :=
  flat_map
    (λ entry, if has_dates entry then date_part <$> elements (dates_json entry) else [])
    (calendar_entries calendarConfig).

(** A value of the diagnostic dump that can be printed. *)
Definition dump_ok (val : json) : bool :=
  match val with
  | JArr (JNull :: _) => false
  | _ => true
  end.

Definition dump_safe (entry : json) : bool :=
  when_truthy (field entry "blockData") (λ bd, forallb dump_ok (own_values bd)) true.

(** What the expansion needs of an entry that has dates: the dates form a
    list of strings and its block can be decoded. *)
Definition dated_entry_safe (entry : json) : bool :=
  iterable (dates_json entry)
  && forallb is_string (elements (dates_json entry))
  && block_safe (field entry "blockData").

(** The entry lists the expansion gets through: no entry is [null], every
    entry with dates is safe, and the block of the first entry with dates
    can be dumped. *)
Fixpoint entries_safe (entries : list json) (debugged : bool) : bool :=
  match entries with
  | [] => true
  | entry :: rest =>
      negb (is_null entry)
      && (if has_dates entry then
            (debugged || dump_safe entry) && dated_entry_safe entry && entries_safe rest true
          else entries_safe rest debugged)
  end.

Definition calendar_safe (calendarConfig : json) : bool :=
  negb (is_null calendarConfig) && entries_safe (calendar_entries calendarConfig) false.

Definition dated_entry (dateTimes : list string) (time style : string) : json :=
  JObj [("eventDates", JObj [("DateTimeValues", JArr (JStr <$> dateTimes))]);
        ("blockData",
         JObj [("EmbeddedValues",
                JArr [JObj [("eyebrow", strings [time]); ("style", strings [style])]])])].

Definition repeated_date_calendar : json :=
  JObj [("EmbeddedValues",
         JArr [dated_entry ["2026-01-05T00:00:00"; "2026-01-05T12:00:00"]
                 "8:30 PM" "Active Style"])].

Definition fan_out_calendar : json :=
  JObj [("EmbeddedValues",
         JArr [dated_entry ["2026-03-02T00:00:00"; "2026-03-01T00:00:00"]
                 "9:00 PM" "Disabled Style";
               JObj [("blockData", JObj [("EmbeddedValues", JArr [JNull])])];
               dated_entry [] "7:00 PM" "Active Style";
               dated_entry ["2026-01-05T00:00:00"] "8:30 PM" "Active Style"])].

Definition null_entry_slot : json := JObj [("EmbeddedValues", JArr [JNull])].

Definition numeric_style_slot : json :=
  JObj [("EmbeddedValues", JArr [JObj [("style", JObj [("Values", JArr [JNum 5])])]])].

Definition numeric_date_calendar : json :=
  JObj [("EmbeddedValues",
         JArr [JObj [("eventDates", JObj [("DateTimeValues", JArr [JNum 20260105])])]])].

(** ** Calendar locator *)

(** The calendars a node offers by itself: the one under its own
    [calendarConfig] key, then the one under its [Fields] wrapper. *)
Definition here_candidates (obj : json) : list json :=
  when_truthy (field obj "calendarConfig") (λ c, [c]) []
  ++ when_truthy (field obj "Fields")
       (λ fields, when_truthy (field fields "calendarConfig") (λ c, [c]) [])
       [].

(** Every calendar the search can reach, in document order: a node before
    its children, children in index or key order, nothing below depth 25
    and nothing under a skipped key. *)
Fixpoint calendar_candidates (obj : json) (depth : nat) : list json :=
  if (25 <? depth)%nat then []
  else match obj with
       | JArr items => flat_map (λ item, calendar_candidates item (S depth)) items
       | JObj entries =>
           here_candidates obj
           ++ flat_map
                (λ kv, if existsb (String.eqb kv.1) skippedKeys then []
                       else calendar_candidates kv.2 (S depth))
                entries
       | _ => []
       end.

Definition not_skipped (kv : string * json) : bool :=
  negb (existsb (String.eqb kv.1) skippedKeys).

(** ** Block decoder: labels *)

(** A text held as a list of values or as a single value. *)
Definition text_field (single : bool) (text : string) : json :=
  if single then JObj [("Value", JStr text)] else strings [text].

(** The block shapes the source documents: one entry under an alias key,
    holding [eyebrow] and [style] directly or under a [Fields] wrapper. *)
Definition documented_entry (wrapper single : bool) (time style : string) : json :=
  let fields := [("eyebrow", text_field single time); ("style", text_field single style)] in
  if wrapper then JObj [("Fields", JObj fields)] else JObj fields.

Definition documented_slot (alias : string) (wrapper single : bool) (time style : string)
    : json :=
  JObj [(alias, JArr [documented_entry wrapper single time style])].

Definition aliasKeys : list string := ["EmbeddedValues"; "LinkedComponentValues"; "Values"].

Definition label_in_header : json :=
  JObj [("header", JObj [("eyebrow", JStr "7:15 PM")]); ("EmbeddedValues", JArr [])].

(** ** Calendar expansion: records *)

(** A calendar node holding the given entries. *)
Definition calendar_of (entries : list json) : json :=
  JObj [("EmbeddedValues", JArr entries)].

(** ** Closure detector: documents *)

(** A document with the given component presentations and other fields. *)
Definition page (presentations : list json) (others : list (string * json)) : json :=
  JObj (("ComponentPresentations", JArr presentations) :: others).

Definition marker : string := "temporarily closed".

(** ** Snapshot differ: edge cases *)

(** A label that [===] compares by value. *)
Definition primitive (j : json) : bool :=
  match j with
  | JArr _ | JObj _ => false
  | _ => true
  end.

(** ** Status rule: what a status tells *)



(** * Properties *)

(** ** Value Locator *)

Lemma findValueByKey_arr items k d :
  findValueByKey (JArr items) k d =
  if (maxDepth <? d)%nat then JNull
  else first_non_null (λ item, findValueByKey item k (S d)) items.
Proof. reflexivity. Qed.

Lemma findValueByKey_obj entries k d :
  findValueByKey (JObj entries) k d =
  if (maxDepth <? d)%nat then JNull
  else first_match_or_non_null k (λ v, findValueByKey v k (S d)) entries.
Proof. reflexivity. Qed.

Lemma findValueByKey_too_deep obj k d :
  (maxDepth < d)%nat → findValueByKey obj k d = JNull.
Proof.
  intros Hd. apply Nat.ltb_lt in Hd.
  destruct obj; simpl; rewrite ?Hd; reflexivity.
Qed.

Lemma is_null_true j : is_null j = true ↔ j = JNull.
Proof. destruct j; simpl; split; congruence. Qed.

Lemma is_null_false j : is_null j = false ↔ j ≠ JNull.
Proof. destruct j; simpl; split; congruence. Qed.

(** No occurrence: the search reports not-found. *)
Lemma findValueByKey_no_occurrence k obj :
  ∀ d, occurrences obj k d = [] → findValueByKey obj k d = JNull.
Proof.
  induction obj as [| | | |items IH|entries IH] using json_nested_ind;
    intros d; try (destruct (maxDepth <? d)%nat eqn:E; simpl; rewrite ?E; reflexivity).
  - rewrite findValueByKey_arr. simpl. destruct (maxDepth <? d)%nat; [reflexivity|].
    induction IH as [|x l Hx _ IHl]; simpl; [reflexivity|].
    intros Happ. apply app_eq_nil in Happ as [H1 H2].
    rewrite (Hx _ H1). simpl. auto.
  - rewrite findValueByKey_obj. simpl. destruct (maxDepth <? d)%nat; [reflexivity|].
    induction IH as [|[key v] l Hx _ IHl]; simpl in *; [reflexivity|].
    intros Happ. apply app_eq_nil in Happ as [H1 H2].
    destruct (String.eqb key k); [discriminate|]. simpl in H1.
    rewrite (Hx _ H1). simpl. auto.
Qed.

(** A first occurrence that is not [null] is what the search returns. *)
Lemma findValueByKey_first k obj :
  ∀ d v, head (occurrences obj k d) = Some v → v ≠ JNull →
         findValueByKey obj k d = v.
Proof.
  induction obj as [| | | |items IH|entries IH] using json_nested_ind;
    intros d v; try (simpl; destruct (maxDepth <? d)%nat; discriminate).
  - rewrite findValueByKey_arr. simpl. destruct (maxDepth <? d)%nat; [discriminate|].
    induction IH as [|x l Hx _ IHl]; simpl; [discriminate|].
    intros Hhd Hv.
    destruct (occurrences x k (S d)) as [|o os] eqn:Ho.
    + rewrite (findValueByKey_no_occurrence _ _ _ Ho). simpl. auto.
    + simpl in Hhd. injection Hhd as ->.
      rewrite (Hx (S d) v) by (rewrite ?Ho; auto).
      apply is_null_false in Hv. rewrite Hv. reflexivity.
  - rewrite findValueByKey_obj. simpl. destruct (maxDepth <? d)%nat; [discriminate|].
    induction IH as [|[key x] l Hx _ IHl]; simpl in *; [discriminate|].
    intros Hhd Hv.
    destruct (String.eqb key k).
    + simpl in Hhd. congruence.
    + simpl in Hhd.
      destruct (occurrences x k (S d)) as [|o os] eqn:Ho.
      * rewrite (findValueByKey_no_occurrence _ _ _ Ho). simpl. auto.
      * simpl in Hhd. injection Hhd as ->.
        rewrite (Hx (S d) v) by (rewrite ?Ho; auto).
        apply is_null_false in Hv. rewrite Hv. reflexivity.
Qed.

(** A result other than [null] is one of the occurrences. *)
Lemma findValueByKey_is_occurrence k obj :
  ∀ d, findValueByKey obj k d ≠ JNull → findValueByKey obj k d ∈ occurrences obj k d.
Proof.
  induction obj as [| | | |items IH|entries IH] using json_nested_ind;
    intros d; try (simpl; destruct (maxDepth <? d)%nat; congruence).
  - rewrite findValueByKey_arr. simpl. destruct (maxDepth <? d)%nat; [congruence|].
    induction IH as [|x l Hx _ IHl]; simpl; [congruence|].
    destruct (is_null (findValueByKey x k (S d))) eqn:E.
    + intros H. apply elem_of_app. right. auto.
    + intros H. apply elem_of_app. left. auto.
  - rewrite findValueByKey_obj. simpl. destruct (maxDepth <? d)%nat; [congruence|].
    induction IH as [|[key x] l Hx _ IHl]; simpl in *; [congruence|].
    destruct (String.eqb key k).
    + intros _. apply elem_of_app. left. simpl. apply list_elem_of_here.
    + simpl. destruct (is_null (findValueByKey x k (S d))) eqn:E.
      * intros H. apply elem_of_app. right. auto.
      * intros H. apply elem_of_app. left. auto.
Qed.

(** A sequence passes over an element whose search found nothing. *)
Lemma findValueByKey_arr_skip x rest k d :
  findValueByKey x k (S d) = JNull →
  findValueByKey (JArr (x :: rest)) k d = findValueByKey (JArr rest) k d.
Proof.
  intros Hx. rewrite !findValueByKey_arr. destruct (maxDepth <? d)%nat; [reflexivity|].
  simpl. rewrite Hx. reflexivity.
Qed.

(** A mapping passes over an entry with another key whose subtree holds
    nothing. *)
Lemma findValueByKey_obj_skip key x rest k d :
  key ≠ k → findValueByKey x k (S d) = JNull →
  findValueByKey (JObj ((key, x) :: rest)) k d = findValueByKey (JObj rest) k d.
Proof.
  intros Hk Hx. rewrite !findValueByKey_obj. destruct (maxDepth <? d)%nat; [reflexivity|].
  simpl. apply String.eqb_neq in Hk. rewrite Hk, Hx. reflexivity.
Qed.

(** A mapping stops at the target key, whatever value it holds and
    whatever follows. *)
Lemma findValueByKey_obj_hit before v after k d :
  (d ≤ maxDepth)%nat →
  Forall (λ kv, kv.1 ≠ k ∧ findValueByKey kv.2 k (S d) = JNull) before →
  findValueByKey (JObj (before ++ (k, v) :: after)) k d = v.
Proof.
  intros Hd Hbefore. induction Hbefore as [|[key x] l [Hk Hx] _ IH]; simpl app.
  - rewrite findValueByKey_obj.
    destruct (maxDepth <? d)%nat eqn:E; [apply Nat.ltb_lt in E; lia|].
    simpl. rewrite String.eqb_refl. reflexivity.
  - rewrite findValueByKey_obj_skip; auto.
Qed.

(** A key held by a mapping at depth 10 is found, one at depth 11 is not. *)
Example findValueByKey_depth_10 :
  findValueByKey (wrapped 10 (JObj [("a", JStr "x")])) "a" 0 = JStr "x".
Proof. reflexivity. Qed.

Example findValueByKey_depth_11 :
  findValueByKey (wrapped 11 (JObj [("a", JStr "x")])) "a" 0 = JNull.
Proof. reflexivity. Qed.

(** C9, as stated, fails: the first value found under the key ["a"] is
    [null], yet the search goes on and returns the second one, which the
    traversal order places after it. *)
Lemma findValueByKey_not_first_occurrence :
  first_occurrence null_then_value "a" = Some JNull
  ∧ findValueByKey null_then_value "a" 0 = JNum 1
  ∧ findValueByKey null_then_value "a" 0
    ≠ default JNull (first_occurrence null_then_value "a").
Proof. split; [reflexivity|]. split; [reflexivity|]. discriminate. Qed.

(** C9 (amended): the search is a function of its input (two calls agree by
    construction), it never raises, and it returns the first value found,
    in depth-first order, under a key equal to the target in a mapping at
    depth at most 10, provided that value is not [null]; with no such
    occurrence, or past the depth bound, it returns the not-found sentinel
    [null]. *)
Theorem findValueByKey_first_occurrence (obj : json) (targetKey : string) :
  (∀ v, first_occurrence obj targetKey = Some v → v ≠ JNull →
        findValueByKey obj targetKey 0 = v)
  ∧ (first_occurrence obj targetKey = None → findValueByKey obj targetKey 0 = JNull)
  ∧ (∀ depth, (maxDepth < depth)%nat → findValueByKey obj targetKey depth = JNull).
Proof.
  split; [|split].
  - intros v Hv Hnn. apply findValueByKey_first; assumption.
  - intros Hnone. apply findValueByKey_no_occurrence.
    unfold first_occurrence in Hnone.
    destruct (occurrences obj targetKey 0); [reflexivity|discriminate].
  - intros depth Hd. apply findValueByKey_too_deep, Hd.
Qed.

Lemma findValueByKey_first_occurrence_witness :
  findValueByKey (JObj [("x", JArr [JObj [("a", JStr "v")]]); ("a", JStr "w")]) "a" 0
  = JStr "v".
Proof.
  apply (proj1 (findValueByKey_first_occurrence
                  (JObj [("x", JArr [JObj [("a", JStr "v")]]); ("a", JStr "w")]) "a")).
  - reflexivity.
  - discriminate.
Defined.

(** C10, as stated, fails: the key ["a"] maps to [null] in the root, a
    later occurrence maps to [1], and the search reports not-found. *)
Lemma findValueByKey_stops_at_null :
  first_non_null_occurrence null_beside_value "a" = Some (JNum 1)
  ∧ findValueByKey null_beside_value "a" 0 = JNull
  ∧ findValueByKey null_beside_value "a" 0
    ≠ default JNull (first_non_null_occurrence null_beside_value "a").
Proof. repeat split; try reflexivity. discriminate. Qed.

(** C10 (amended): a result other than [null] is the value of an
    occurrence of the target key; when every occurrence maps to [null] the
    search reports not-found; a [null] held under the target key ends the
    search of the mapping that holds it, whatever its later keys hold; the
    traversal goes on only in the enclosing sequences and mappings, past an
    element or an entry whose search found nothing. *)
Theorem findValueByKey_null_occurrence (obj : json) (targetKey : string) :
  (findValueByKey obj targetKey 0 ≠ JNull →
   findValueByKey obj targetKey 0 ∈ occurrences obj targetKey 0)
  ∧ (Forall (λ v, v = JNull) (occurrences obj targetKey 0) →
     findValueByKey obj targetKey 0 = JNull)
  ∧ (∀ before after,
       obj = JObj (before ++ (targetKey, JNull) :: after) →
       Forall (λ kv, kv.1 ≠ targetKey ∧ findValueByKey kv.2 targetKey 1 = JNull) before →
       findValueByKey obj targetKey 0 = JNull)
  ∧ (∀ x rest,
       obj = JArr (x :: rest) → findValueByKey x targetKey 1 = JNull →
       findValueByKey obj targetKey 0 = findValueByKey (JArr rest) targetKey 0)
  ∧ (∀ key x rest,
       obj = JObj ((key, x) :: rest) → key ≠ targetKey →
       findValueByKey x targetKey 1 = JNull →
       findValueByKey obj targetKey 0 = findValueByKey (JObj rest) targetKey 0).
Proof.
  repeat split.
  - apply findValueByKey_is_occurrence.
  - intros Hall.
    destruct (is_null (findValueByKey obj targetKey 0)) eqn:E;
      [apply is_null_true, E|].
    apply is_null_false in E.
    pose proof (findValueByKey_is_occurrence targetKey obj 0 E) as Hin.
    rewrite Forall_forall in Hall. exfalso. apply E, Hall, Hin.
  - intros before after -> Hbefore.
    apply findValueByKey_obj_hit; [unfold maxDepth; lia|assumption].
  - intros x rest -> Hx. apply findValueByKey_arr_skip, Hx.
  - intros key x rest -> Hk Hx. apply findValueByKey_obj_skip; assumption.
Qed.

Lemma findValueByKey_null_occurrence_witness :
  findValueByKey null_then_value "a" 0 ∈ occurrences null_then_value "a" 0
  ∧ findValueByKey null_beside_value "a" 0 = JNull.
Proof.
  split.
  - apply (proj1 (findValueByKey_null_occurrence null_then_value "a")). discriminate.
  - apply (proj1 (proj2 (proj2 (findValueByKey_null_occurrence null_beside_value "a")))
             [] [("b", JObj [("a", JNum 1)])]).
    + reflexivity.
    + constructor.
Defined.

(** ** Outcomes *)

Lemma bind_Ret {A B} (a : A) (f : A → outcome B) : (Ret a ≫= f) = f a.
Proof. reflexivity. Qed.

Lemma bind_Throw {A B} (e : exn) (f : A → outcome B) : (Throw e ≫= f) = Throw e.
Proof. reflexivity. Qed.

Lemma bind_Ret_inv {A B} (m : outcome A) (f : A → outcome B) (b : B) :
  (m ≫= f) = Ret b → ∃ a, m = Ret a ∧ f a = Ret b.
Proof. destruct m as [a|e]; [eauto|discriminate]. Qed.

Lemma prop_Ret_inv j k v : prop (Some j) k = Ret v → j ≠ JNull ∧ v = field j k.
Proof. destruct j; simpl; intros H; inversion H; split; congruence. Qed.

Lemma prop_not_null j k : j ≠ JNull → prop (Some j) k = Ret (field j k).
Proof. destruct j; simpl; congruence. Qed.

Lemma optchain_not_null j k : j ≠ JNull → optchain (Some j) k = field j k.
Proof. destruct j; simpl; congruence. Qed.

(** Inverts a hypothesis saying that a sequence of steps returned. *)
Ltac bind_inv H :=
  let a := fresh "a" in
  let Ha := fresh "Ha" in
  apply bind_Ret_inv in H as (a & Ha & H).

(** ** Closure detector *)

Lemma iterate_Ret_inv j l : iterate j = Ret l → l = elements j.
Proof. destruct j; simpl; congruence. Qed.

Lemma iterate_iterable j : iterable j = true → iterate j = Ret (elements j).
Proof. destruct j; simpl; congruence. Qed.

Lemma scan_features_sound fs b :
  scan_features fs = Ret b → b = existsb mentions_closure fs.
Proof.
  induction fs as [|feature rest IH]; simpl; [congruence|].
  intros H. bind_inv H. apply prop_Ret_inv in Ha as [Hnn ->].
  bind_inv H. unfold mentions_closure, description_of.
  rewrite (optchain_not_null _ _ Hnn).
  destruct (or_default _ _); simpl in Ha; try discriminate.
  injection Ha as <-.
  destruct (includes _ _); [simpl; congruence|]. simpl. auto.
Qed.

Lemma scan_features_ok fs :
  forallb feature_ok fs = true →
  scan_features fs = Ret (existsb mentions_closure fs).
Proof.
  induction fs as [|feature rest IH]; [reflexivity|].
  cbn [scan_features forallb existsb].
  intros H. apply andb_prop in H as [Hf Hrest].
  apply andb_prop in Hf as [Hnn Hstr].
  apply negb_true_iff, is_null_false in Hnn.
  rewrite (prop_not_null _ _ Hnn), bind_Ret.
  unfold mentions_closure, description_of in *.
  rewrite (optchain_not_null _ _ Hnn) in *.
  destruct (or_default _ _); simpl in Hstr; try discriminate.
  simpl. destruct (includes _ _); simpl; auto.
Qed.

Lemma scan_presentations_sound ps b :
  scan_presentations ps = Ret b →
  b = existsb (λ cp, existsb mentions_closure (elements (features_json cp))) ps.
Proof.
  induction ps as [|cp rest IH]; simpl; [congruence|].
  intros H. bind_inv H. apply prop_Ret_inv in Ha as [Hnn ->].
  bind_inv H. apply iterate_Ret_inv in Ha. bind_inv H.
  apply scan_features_sound in Ha0. subst.
  unfold features_json at 1. rewrite (optchain_not_null _ _ Hnn).
  destruct (existsb mentions_closure _); simpl; [congruence|auto].
Qed.

Lemma scan_presentations_ok ps :
  forallb presentation_ok ps = true →
  scan_presentations ps
  = Ret (existsb (λ cp, existsb mentions_closure (elements (features_json cp))) ps).
Proof.
  induction ps as [|cp rest IH]; [reflexivity|].
  cbn [scan_presentations forallb existsb].
  intros H. apply andb_prop in H as [Hp Hrest].
  apply andb_prop in Hp as [Hp Hfs]. apply andb_prop in Hp as [Hnn Hit].
  apply negb_true_iff, is_null_false in Hnn.
  rewrite (prop_not_null _ _ Hnn), bind_Ret.
  unfold features_json in *. rewrite (optchain_not_null _ _ Hnn) in *.
  rewrite (iterate_iterable _ Hit), bind_Ret.
  rewrite (scan_features_ok _ Hfs), bind_Ret.
  destruct (existsb mentions_closure _); simpl; auto.
Qed.

Lemma closed_scan_sound doc b :
  closed_scan doc = Ret b → b = has_closure_marker doc.
Proof.
  unfold closed_scan, has_closure_marker, presentations_json. intros H.
  bind_inv H. apply prop_Ret_inv in Ha as [Hnn ->].
  bind_inv H. apply iterate_Ret_inv in Ha. subst.
  rewrite (optchain_not_null _ _ Hnn). apply scan_presentations_sound, H.
Qed.

Lemma closed_scan_ok doc :
  traversable doc = true → closed_scan doc = Ret (has_closure_marker doc).
Proof.
  unfold traversable, closed_scan, has_closure_marker, presentations_json. intros H.
  apply andb_prop in H as [H Hps]. apply andb_prop in H as [Hnn Hit].
  apply negb_true_iff, is_null_false in Hnn.
  rewrite (optchain_not_null _ _ Hnn) in *.
  rewrite (prop_not_null _ _ Hnn), bind_Ret.
  rewrite (iterate_iterable _ Hit), bind_Ret.
  apply scan_presentations_ok, Hps.
Qed.

(** C7, as stated, fails: a feature description contains "temporarily
    closed", but a [null] presentation is met first and the detector
    answers [false]. *)
Lemma checkTemporarilyClosed_misses_marker :
  has_closure_marker closure_after_null = true
  ∧ checkTemporarilyClosed closure_after_null = false.
Proof. split; reflexivity. Qed.

(** C7 (amended): the detector never raises (it is a total boolean); it
    answers [true] only if some feature description text in the component
    presentations contains "temporarily closed" case-insensitively; on a
    document whose scan meets no traversal error it answers [true] exactly
    when there is such a description; and whenever the scan raises, before
    a marked feature was reached, it answers [false]. *)
Theorem checkTemporarilyClosed_spec (cmsData : json) :
  (checkTemporarilyClosed cmsData = true → has_closure_marker cmsData = true)
  ∧ (traversable cmsData = true →
     checkTemporarilyClosed cmsData = has_closure_marker cmsData)
  ∧ (throws (closed_scan cmsData) → checkTemporarilyClosed cmsData = false).
Proof.
  unfold checkTemporarilyClosed. repeat split.
  - destruct (closed_scan cmsData) as [b|e] eqn:E; [|discriminate].
    intros ->. symmetry. apply closed_scan_sound, E.
  - intros Hok. rewrite (closed_scan_ok _ Hok). reflexivity.
  - intros [e ->]. reflexivity.
Qed.

Lemma checkTemporarilyClosed_spec_witness :
  checkTemporarilyClosed
    (JObj [("ComponentPresentations",
            JArr [presentation_described "Ride is TEMPORARILY closed"])])
  = true
  ∧ checkTemporarilyClosed closure_after_null = false.
Proof.
  split.
  - rewrite (proj1 (proj2 (checkTemporarilyClosed_spec _))); reflexivity.
  - apply (proj2 (proj2 (checkTemporarilyClosed_spec closure_after_null))).
    exists TypeError. reflexivity.
Defined.

(** ** Snapshot differ *)

Lemma strict_eq_strings a b : strict_eq (JStr a) (JStr b) = true ↔ a = b.
Proof. simpl. apply String.eqb_eq. Qed.

Lemma push_if_app cond ev changes :
  push_if cond ev changes = changes ++ push_if cond ev [].
Proof. destruct cond; simpl; [reflexivity|]. rewrite app_nil_r. reflexivity. Qed.

Lemma compare_new_app showConfig m changes newRec :
  compare_new showConfig m changes newRec
  = changes ++ compare_new showConfig m [] newRec.
Proof.
  unfold compare_new. destruct (m !! schedule_date newRec) as [existing|]; [|reflexivity].
  rewrite push_if_app. rewrite (push_if_app _ _ changes).
  rewrite (push_if_app _ _ (push_if _ _ [])). rewrite <- app_assoc. reflexivity.
Qed.

Lemma compare_existing_app showConfig s changes existing :
  compare_existing showConfig s changes existing
  = changes ++ compare_existing showConfig s [] existing.
Proof. unfold compare_existing. apply push_if_app. Qed.

(** A loop that only appends is the concatenation of what each round
    appends. *)
Lemma foldl_appending {A B} (step : list B → A → list B) (l : list A) :
  (∀ acc x, step acc x = acc ++ step [] x) →
  ∀ acc, foldl step acc l = acc ++ flat_map (step []) l.
Proof.
  intros Hstep. induction l as [|x l IH]; intros acc; simpl.
  - rewrite app_nil_r. reflexivity.
  - rewrite IH, Hstep, <- app_assoc. reflexivity.
Qed.

Lemma detectChanges_flat_map showConfig newSchedules existingSchedules :
  detectChanges showConfig newSchedules existingSchedules
  = flat_map
      (compare_new showConfig
         (foldl (λ m existing, <[schedule_date existing := existing]> m) ∅ existingSchedules)
         [])
      newSchedules
    ++ flat_map
         (compare_existing showConfig (list_to_set (schedule_date <$> newSchedules)) [])
         existingSchedules.
Proof.
  unfold detectChanges.
  rewrite (foldl_appending _ existingSchedules (compare_existing_app _ _)).
  rewrite (foldl_appending _ newSchedules (compare_new_app _ _)).
  reflexivity.
Qed.

(** [Map.set] in a loop keeps, for each date, the last record set; with one
    record per date that is the record of the list. *)
Lemma existingMap_lookup (existingSchedules : list ScheduleRecord) (date : string) :
  NoDup (schedule_date <$> existingSchedules) →
  ∀ m : gmap string ScheduleRecord,
    foldl (λ m existing, <[schedule_date existing := existing]> m) m existingSchedules
      !! date
    = match prior_at existingSchedules date with
      | Some existing => Some existing
      | None => m !! date
      end.
Proof.
  unfold prior_at.
  induction existingSchedules as [|e l IH]; intros Hnd m; [reflexivity|].
  rewrite fmap_cons in Hnd. apply NoDup_cons in Hnd as [Hnotin Hnd].
  cbn [foldl List.find]. rewrite (IH Hnd).
  destruct (String.eqb_spec (schedule_date e) date) as [Heq|Hne].
  - subst date.
    destruct (List.find _ l) as [e'|] eqn:Hfind.
    + apply find_some in Hfind as [Hin Hdate]. apply String.eqb_eq in Hdate.
      exfalso. apply Hnotin. rewrite <- Hdate.
      apply list_elem_of_fmap. exists e'. split; [reflexivity|].
      apply list_elem_of_In, Hin.
    + apply lookup_insert_eq.
  - destruct (List.find _ l); [reflexivity|]. apply lookup_insert_ne, Hne.
Qed.

Lemma newDateSet_member (newSchedules : list ScheduleRecord) (date : string) :
  bool_decide (date ∈ (list_to_set (schedule_date <$> newSchedules) : gset string))
  = existsb (λ newRec, String.eqb (schedule_date newRec) date) newSchedules.
Proof.
  apply eq_true_iff_eq. rewrite bool_decide_eq_true, elem_of_list_to_set.
  rewrite list_elem_of_fmap, existsb_exists. split.
  - intros (r & -> & Hin). exists r. split; [apply list_elem_of_In, Hin|].
    apply String.eqb_refl.
  - intros (r & Hin & Heq). exists r. apply String.eqb_eq in Heq.
    split; [congruence|apply list_elem_of_In, Hin].
Qed.

Lemma compare_new_events showConfig existingSchedules newRec :
  NoDup (schedule_date <$> existingSchedules) →
  compare_new showConfig
    (foldl (λ m existing, <[schedule_date existing := existing]> m) ∅ existingSchedules)
    [] newRec
  = events_for_new showConfig existingSchedules newRec.
Proof.
  intros Hnd. unfold compare_new, events_for_new.
  rewrite (existingMap_lookup _ _ Hnd), lookup_empty.
  destruct (prior_at existingSchedules (schedule_date newRec)) as [existing|];
    [|reflexivity].
  destruct (strict_eq _ _), (String.eqb _ _); reflexivity.
Qed.

Lemma compare_existing_events showConfig newSchedules existing :
  compare_existing showConfig (list_to_set (schedule_date <$> newSchedules)) [] existing
  = events_for_prior showConfig newSchedules existing.
Proof.
  unfold compare_existing, events_for_prior. rewrite newDateSet_member.
  destruct (existsb _ _); reflexivity.
Qed.

(** C1: with at most one prior record per date, the differ emits exactly,
    for each new record, one ADD (severity LOW, new value [{show_time,
    status}], no old value) when no prior record has its date, otherwise a
    CHANGE (severity MEDIUM) restricted to [show_time] iff the labels
    differ by strict equality, which on strings is string equality, and a
    second CHANGE (severity MEDIUM) restricted to [status] iff the statuses
    differ; then, for each prior record whose date is the date of no new
    record, one REMOVE (severity HIGH, old value [{show_time, status}], no
    new value).  Duplicate dates among the new records need not be
    excluded. *)
Theorem detectChanges_exact (showConfig : ShowConfig)
    (newRecords priorRecords : list ScheduleRecord) :
  NoDup (schedule_date <$> priorRecords) →
  detectChanges showConfig newRecords priorRecords
  = flat_map (events_for_new showConfig priorRecords) newRecords
    ++ flat_map (events_for_prior showConfig newRecords) priorRecords
  ∧ (∀ newRec,
       let ev := added showConfig newRec in
       kind_of ev = ADD ∧ severity ev = "LOW" ∧ change_date ev = schedule_date newRec
       ∧ old_value ev = None
       ∧ new_value ev = Some (both (show_time newRec) (status newRec)))
  ∧ (∀ existing newRec,
       let ev := time_changed showConfig existing newRec in
       kind_of ev = CHANGE ∧ severity ev = "MEDIUM"
       ∧ change_date ev = schedule_date newRec
       ∧ old_value ev = Some (only_show_time (show_time existing))
       ∧ new_value ev = Some (only_show_time (show_time newRec)))
  ∧ (∀ existing newRec,
       let ev := status_changed showConfig existing newRec in
       kind_of ev = CHANGE ∧ severity ev = "MEDIUM"
       ∧ change_date ev = schedule_date newRec
       ∧ old_value ev = Some (only_status (status existing))
       ∧ new_value ev = Some (only_status (status newRec)))
  ∧ (∀ existing,
       let ev := removed showConfig existing in
       kind_of ev = REMOVE ∧ severity ev = "HIGH"
       ∧ change_date ev = schedule_date existing
       ∧ old_value ev = Some (both (show_time existing) (status existing))
       ∧ new_value ev = None)
  ∧ (∀ a b, strict_eq (JStr a) (JStr b) = true ↔ a = b).
Proof.
  intros Hnd. split; [|repeat split; try apply strict_eq_strings].
  rewrite detectChanges_flat_map. f_equal.
  - apply flat_map_ext. intros newRec. apply compare_new_events, Hnd.
  - apply flat_map_ext. intros existing. apply compare_existing_events.
Qed.

Lemma detectChanges_exact_witness :
  NoDup (schedule_date <$> sample_prior)
  ∧ detectChanges sample_show sample_new sample_prior
    = [time_changed sample_show (scheduled "2026-01-05" "8:00 PM")
         (tentative "2026-01-05" "8:30 PM");
       status_changed sample_show (scheduled "2026-01-05" "8:00 PM")
         (tentative "2026-01-05" "8:30 PM");
       added sample_show (scheduled "2026-01-06" "9:00 PM");
       removed sample_show (scheduled "2026-01-07" "8:00 PM")].
Proof.
  assert (Hnd : NoDup (schedule_date <$> sample_prior)).
  { apply (bool_decide_unpack _). vm_compute. exact I. }
  split; [exact Hnd|].
  rewrite (proj1 (detectChanges_exact sample_show sample_new sample_prior Hnd)).
  reflexivity.
Defined.

(** The scenario of the specification: only the label differs, one MEDIUM
    event for it and none for the status. *)
Example detectChanges_time_only :
  detectChanges sample_show [scheduled "2026-01-05" "8:30 PM"]
    [scheduled "2026-01-05" "8:00 PM"]
  = [time_changed sample_show (scheduled "2026-01-05" "8:00 PM")
       (scheduled "2026-01-05" "8:30 PM")].
Proof. vm_compute. reflexivity. Qed.

Lemma compare_new_kinds showConfig m newRec :
  Forall (λ ev, change_date ev = schedule_date newRec ∧ kind_of ev ≠ REMOVE)
    (compare_new showConfig m [] newRec).
Proof.
  unfold compare_new. destruct (m !! schedule_date newRec) as [existing|].
  - destruct (strict_eq _ _), (String.eqb _ _); simpl;
      repeat constructor; discriminate.
  - repeat constructor. discriminate.
Qed.

Lemma compare_existing_kinds showConfig s existing :
  Forall (λ ev, change_date ev = schedule_date existing ∧ kind_of ev = REMOVE)
    (compare_existing showConfig s [] existing).
Proof.
  unfold compare_existing. destruct (bool_decide _); simpl; repeat constructor.
Qed.

Lemma Forall2_map_self {A B} (R : A → B → Prop) (f : A → B) (l : list A) :
  (∀ x, R x (f x)) → Forall2 R l (f <$> l).
Proof. intros H. induction l; simpl; constructor; auto. Qed.

(** C8: for every input, the output is the events derived from the new
    records, group by group in the order of the new records and none of
    them a REMOVE, followed by the events derived from the prior records,
    group by group in the order of the prior records and all of them
    REMOVE. *)
Theorem detectChanges_order (showConfig : ShowConfig)
    (newRecords priorRecords : list ScheduleRecord) :
  ∃ fromNew fromPrior : list (list ChangeEvent),
    detectChanges showConfig newRecords priorRecords
    = concat fromNew ++ concat fromPrior
    ∧ Forall2
        (λ newRec evs,
           Forall (λ ev, change_date ev = schedule_date newRec
                         ∧ (kind_of ev = ADD ∨ kind_of ev = CHANGE)) evs)
        newRecords fromNew
    ∧ Forall2
        (λ existing evs,
           Forall (λ ev, change_date ev = schedule_date existing ∧ kind_of ev = REMOVE) evs)
        priorRecords fromPrior.
Proof.
  eexists (_ <$> newRecords), (_ <$> priorRecords). split; [|split].
  - rewrite detectChanges_flat_map, !flat_map_concat_map. reflexivity.
  - apply Forall2_map_self. intros newRec.
    eapply Forall_impl; [apply compare_new_kinds|].
    intros ev [Hd Hk]. split; [exact Hd|]. destruct (kind_of ev); auto. congruence.
  - apply Forall2_map_self. intros existing. apply compare_existing_kinds.
Qed.

(** ** Status rule *)

Lemma collect_Ret_inv cmsData isClosed newSchedules :
  collect cmsData = Ret (isClosed, newSchedules) →
  isClosed = checkTemporarilyClosed cmsData
  ∧ (truthy_json (findCalendarConfig cmsData 0) = true →
     parseCalendarConfig (findCalendarConfig cmsData 0) = Ret newSchedules)
  ∧ (truthy_json (findCalendarConfig cmsData 0) = false → newSchedules = []).
Proof.
  unfold collect. intros H. bind_inv H. injection H as <- <-.
  split; [reflexivity|].
  destruct (truthy_json (findCalendarConfig cmsData 0)).
  - split; [intros _; exact Ha|discriminate].
  - split; [discriminate|intros _].
    destruct (checkTemporarilyClosed cmsData); [congruence|].
    bind_inv Ha. congruence.
Qed.

(** C6: whenever the collection of a document completes with closure flag
    [isClosed] (the answer of the Closure Detector) and records
    [newSchedules] (what the expansion of the located calendar returned,
    nothing when no calendar was located), the status is
    TEMPORARILY_CLOSED if [isClosed]; otherwise ACTIVE if there is at least
    one record; otherwise UNKNOWN. *)
Theorem processShow_status_rule (cmsData : json) (isClosed : bool)
    (newSchedules : list ScheduleRecord) :
  collect cmsData = Ret (isClosed, newSchedules) →
  isClosed = checkTemporarilyClosed cmsData
  ∧ (truthy_json (findCalendarConfig cmsData 0) = true →
     parseCalendarConfig (findCalendarConfig cmsData 0) = Ret newSchedules)
  ∧ (truthy_json (findCalendarConfig cmsData 0) = false → newSchedules = [])
  ∧ (isClosed = true → processShow_status cmsData = Ret "TEMPORARILY_CLOSED")
  ∧ (isClosed = false → (1 ≤ length newSchedules)%nat →
     processShow_status cmsData = Ret "ACTIVE")
  ∧ (isClosed = false → newSchedules = [] →
     processShow_status cmsData = Ret "UNKNOWN").
Proof.
  intros H. destruct (collect_Ret_inv _ _ _ H) as (Hc & Hfound & Hnone).
  repeat split; try assumption; unfold processShow_status; rewrite H, bind_Ret;
    unfold currentStatus.
  - intros ->. reflexivity.
  - intros -> Hlen. destruct newSchedules; [simpl in Hlen; lia|reflexivity].
  - intros -> ->. reflexivity.
Qed.

Lemma processShow_status_rule_witness :
  processShow_status closed_with_calendar = Ret "TEMPORARILY_CLOSED".
Proof.
  apply (processShow_status_rule closed_with_calendar true
           [scheduled "2026-01-05" "8:30 PM"; scheduled "2026-01-06" "8:30 PM"]);
    reflexivity.
Defined.

Example processShow_status_active :
  processShow_status (JObj [("calendarConfig", sample_calendar)]) = Ret "ACTIVE".
Proof. reflexivity. Qed.

(** The scenario of the specification: no calendar, no closure marker, no
    component presentations. *)
Example processShow_status_unknown :
  processShow_status (JObj [("ComponentPresentations", JArr [])]) = Ret "UNKNOWN".
Proof. reflexivity. Qed.

(** ** Block decoder *)

Lemma direct_or_fields_not_null block k :
  block ≠ JNull → direct_or_fields block k = Ret (fast_field block k).
Proof.
  intros Hnn. unfold direct_or_fields, fast_field, or_else.
  rewrite !(prop_not_null _ _ Hnn), bind_Ret.
  destruct (truthy (field block k)); reflexivity.
Qed.

Lemma direct_or_fields_null k : direct_or_fields JNull k = Throw TypeError.
Proof. reflexivity. Qed.

Lemma style_disabled_text s :
  style_disabled (JStr s) = Ret (includes (toLowerCase s) "disabled").
Proof. reflexivity. Qed.

Lemma style_disabled_Ret_inv v b :
  style_disabled v = Ret b → ∃ s, v = JStr s ∧ b = includes (toLowerCase s) "disabled".
Proof. destruct v; simpl; intros H; inversion H. eauto. Qed.

(** What the deep search for a style answers when it is run. *)
Lemma style_fallback_false slot :
  style_fallback slot false
  = match deep_style_value slot with
    | None => Ret false
    | Some v => style_disabled v
    end.
Proof.
  unfold style_fallback, deep_style_value, when_truthy. simpl.
  destruct (truthy_json (findValueByKey slot "style" 0)); reflexivity.
Qed.

Lemma style_fallback_true slot : style_fallback slot true = Ret true.
Proof. reflexivity. Qed.

Lemma extractBlockInfo_truthy slot :
  truthy_json slot = true →
  extractBlockInfo (Some slot)
  = (fast ← fast_path (entries_of slot);
     isTentative ← style_fallback slot (isTentative fast);
     Ret {| showTime := eyebrow_fallback slot (showTime fast);
            isTentative := isTentative |}).
Proof. intros Ht. unfold extractBlockInfo, when_truthy. rewrite Ht. reflexivity. Qed.

Lemma fast_path_first_entry slot :
  fast_path (entries_of slot)
  = match first_entry slot with
    | None => Ret {| showTime := JStr "Unknown"; isTentative := false |}
    | Some block =>
        if is_null block then Throw TypeError
        else match fast_style_value block with
             | None => Ret {| showTime := fast_label block; isTentative := false |}
             | Some (JStr s) =>
                 Ret {| showTime := fast_label block;
                        isTentative := includes (toLowerCase s) "disabled" |}
             | Some _ => Throw TypeError
             end
    end.
Proof.
  unfold first_entry, fast_path.
  destruct (entries_of slot) as [| | | |[|block rest]|]; try reflexivity.
  destruct (is_null block) eqn:Hnull.
  - apply is_null_true in Hnull. subst block. reflexivity.
  - apply is_null_false in Hnull.
    rewrite !(direct_or_fields_not_null _ _ Hnull), !bind_Ret.
    unfold fast_style_value, fast_label, when_truthy.
    destruct (fast_field block "style") as [s|]; [|reflexivity].
    destruct (truthy_json s); [|reflexivity].
    destruct (first_or_single s (JStr "")); reflexivity.
Qed.

(** C3, as stated, fails: the first entry carries the style "Active
    Style", the fast path reports the slot not tentative, and the deep
    search, run all the same, finds another style first and reports the
    slot tentative. *)
Lemma extractBlockInfo_style_overridden :
  first_entry style_decoy
  = Some (JObj [("eyebrow", strings ["8:30 PM"]); ("style", strings ["Active Style"])])
  ∧ fast_style_value
      (JObj [("eyebrow", strings ["8:30 PM"]); ("style", strings ["Active Style"])])
    = Some (JStr "Active Style")
  ∧ includes (toLowerCase "Active Style") "disabled" = false
  ∧ fast_path (entries_of style_decoy)
    = Ret {| showTime := JStr "8:30 PM"; isTentative := false |}
  ∧ extractBlockInfo (Some style_decoy)
    = Ret {| showTime := JStr "8:30 PM"; isTentative := true |}.
Proof. repeat split; reflexivity. Qed.

(** C3 (amended): the fast path marks the slot tentative iff the style
    text of its first entry contains "disabled".  The deep search for a
    "style" key is skipped exactly when the fast path marked the slot
    tentative, and the slot is then reported tentative whatever else it
    holds.  When the fast path did not mark it
    tentative, the first entry having no style or one whose text lacks
    "disabled", the deep search runs and alone decides: the slot is
    tentative iff the first "style" value located inside the slot contains
    "disabled", and the decoder returns iff that value is text. *)
Theorem extractBlockInfo_style_order (slot : json) (fast : BlockInfo) :
  truthy_json slot = true →
  fast_path (entries_of slot) = Ret fast →
  isTentative fast
  = match first_entry slot with
    | Some block => says_disabled (fast_style_value block)
    | None => false
    end
  ∧ (isTentative fast = true →
   extractBlockInfo (Some slot)
   = Ret {| showTime := eyebrow_fallback slot (showTime fast); isTentative := true |})
  ∧ (isTentative fast = false →
     (is_text (deep_style_value slot) = true →
      extractBlockInfo (Some slot)
      = Ret {| showTime := eyebrow_fallback slot (showTime fast);
               isTentative := says_disabled (deep_style_value slot) |})
     ∧ (is_text (deep_style_value slot) = false →
        extractBlockInfo (Some slot) = Throw TypeError)).
Proof.
  intros Ht Hfast. rewrite (extractBlockInfo_truthy _ Ht), Hfast, bind_Ret.
  split; [|split].
  - rewrite fast_path_first_entry in Hfast.
    destruct (first_entry slot) as [block|]; [|injection Hfast as <-; reflexivity].
    destruct (is_null block); [discriminate|].
    destruct (fast_style_value block) as [[| | |s| |]|]; try discriminate;
      injection Hfast as <-; reflexivity.
  - intros ->. reflexivity.
  - intros ->. rewrite style_fallback_false.
    destruct (deep_style_value slot) as [[| | |s| |]|]; simpl;
      split; intros H; try discriminate; reflexivity.
Qed.

Lemma extractBlockInfo_style_order_witness :
  extractBlockInfo (Some tentative_despite_bad_style)
  = Ret {| showTime := JStr "Unknown"; isTentative := true |}
  ∧ extractBlockInfo (Some style_decoy)
    = Ret {| showTime := JStr "8:30 PM"; isTentative := true |}.
Proof.
  split.
  - apply (proj1 (proj2 (extractBlockInfo_style_order tentative_despite_bad_style
                           {| showTime := JStr "Unknown"; isTentative := true |}
                           eq_refl eq_refl))).
    reflexivity.
  - apply (proj1 (proj2 (proj2 (extractBlockInfo_style_order style_decoy
                                  {| showTime := JStr "8:30 PM"; isTentative := false |}
                                  eq_refl eq_refl)) eq_refl)).
    reflexivity.
Defined.

Lemma extractBlockInfo_falsy blockData :
  truthy blockData = false →
  extractBlockInfo blockData = Ret {| showTime := JStr "Unknown"; isTentative := false |}.
Proof.
  unfold extractBlockInfo, when_truthy. destruct blockData as [j|]; simpl; [|reflexivity].
  intros ->. reflexivity.
Qed.

(** The decoder returns exactly on the safe slots. *)
Lemma extractBlockInfo_returns_iff blockData :
  returns (extractBlockInfo blockData) ↔ block_safe blockData = true.
Proof.
  destruct (truthy blockData) eqn:Ht.
  - destruct blockData as [slot|]; [|discriminate]. simpl in Ht.
    rewrite (extractBlockInfo_truthy _ Ht), fast_path_first_entry.
    unfold block_safe, when_truthy. rewrite Ht.
    destruct (first_entry slot) as [block|].
    + destruct (is_null block); simpl; [split; [intros [? ?]|]; discriminate|].
      destruct (fast_style_value block) as [[| | |s| |]|]; simpl;
        try (split; [intros [? ?]|]; discriminate).
      * destruct (includes (toLowerCase s) "disabled"); simpl.
        -- split; [reflexivity|]. intros _. eexists. reflexivity.
        -- rewrite style_fallback_false.
           destruct (deep_style_value slot) as [[| | |s'| |]|]; simpl;
             try (split; [intros [? ?]|]; discriminate);
             (split; [reflexivity|]; intros _; eexists; reflexivity).
      * rewrite style_fallback_false.
        destruct (deep_style_value slot) as [[| | |s'| |]|]; simpl;
          try (split; [intros [? ?]|]; discriminate);
          (split; [reflexivity|]; intros _; eexists; reflexivity).
    + simpl. rewrite style_fallback_false.
      destruct (deep_style_value slot) as [[| | |s'| |]|]; simpl;
        try (split; [intros [? ?]|]; discriminate);
        (split; [reflexivity|]; intros _; eexists; reflexivity).
  - rewrite (extractBlockInfo_falsy _ Ht). unfold block_safe, when_truthy.
    destruct blockData as [j|]; simpl in *; rewrite ?Ht;
      (split; [reflexivity|]; intros _; eexists; reflexivity).
Qed.

(** ** Calendar expansion *)

Lemma records_for_sound info dts recs :
  records_for info dts = Ret recs → recs = record_of info <$> dts.
Proof.
  revert recs. induction dts as [|dt rest IH]; simpl; intros recs H.
  - congruence.
  - bind_inv H. bind_inv H. injection H as <-.
    rewrite (IH _ Ha0). f_equal.
    destruct dt; simpl in Ha; try discriminate. injection Ha as <-. reflexivity.
Qed.

Lemma records_for_ok info dts :
  forallb is_string dts = true → records_for info dts = Ret (record_of info <$> dts).
Proof.
  induction dts as [|dt rest IH]; simpl; [reflexivity|].
  intros H. apply andb_prop in H as [Hdt Hrest].
  destruct dt; try discriminate. simpl. rewrite (IH Hrest). reflexivity.
Qed.

Lemma dump_values_ok vals : forallb dump_ok vals = true → dump_values vals = Ret ().
Proof.
  induction vals as [|val rest IH]; simpl; [reflexivity|].
  intros H. apply andb_prop in H as [Hval Hrest]. rewrite (IH Hrest).
  destruct val as [| | | |[|[] ?]|]; try reflexivity. discriminate.
Qed.

Lemma debug_first_entry_ok entry : dump_safe entry = true → debug_first_entry entry = Ret ().
Proof.
  unfold dump_safe, debug_first_entry, when_truthy.
  destruct (field entry "blockData") as [bd|]; [|reflexivity].
  destruct (truthy_json bd); [apply dump_values_ok|reflexivity].
Qed.

Lemma decoded_Ret entry info :
  extractBlockInfo (field entry "blockData") = Ret info → decoded entry = info.
Proof. unfold decoded. intros ->. reflexivity. Qed.

Lemma parse_entries_cons entry rest debugged schedules :
  entry ≠ JNull →
  parse_entries (entry :: rest) debugged schedules
  = if has_dates entry then
      _ ← (if debugged then Ret () else debug_first_entry entry);
      info ← extractBlockInfo (field entry "blockData");
      dts ← iterate (dates_json entry);
      recs ← records_for info dts;
      parse_entries rest true (schedules ++ recs)
    else parse_entries rest debugged schedules.
Proof.
  intros Hnn. cbn [parse_entries]. rewrite (prop_not_null _ _ Hnn), bind_Ret.
  unfold has_dates, dates_json. rewrite (optchain_not_null _ _ Hnn).
  destruct (length_is_zero _); reflexivity.
Qed.

Lemma parse_entries_null rest debugged schedules :
  parse_entries (JNull :: rest) debugged schedules = Throw TypeError.
Proof. reflexivity. Qed.

(** What the loop returns, when it returns. *)
Lemma parse_entries_sound entries :
  ∀ debugged schedules recs,
    parse_entries entries debugged schedules = Ret recs →
    recs = schedules ++ flat_map expand_entry entries.
Proof.
  induction entries as [|entry rest IH]; intros debugged schedules recs H.
  - simpl in H. injection H as <-. simpl. rewrite app_nil_r. reflexivity.
  - destruct (is_null entry) eqn:Hnull.
    { apply is_null_true in Hnull. subst. discriminate. }
    apply is_null_false in Hnull. rewrite (parse_entries_cons _ _ _ _ Hnull) in H.
    cbn [flat_map]. unfold expand_entry at 1.
    destruct (has_dates entry).
    + bind_inv H. bind_inv H. bind_inv H. bind_inv H.
      apply IH in H. apply records_for_sound in Ha2. apply iterate_Ret_inv in Ha1.
      rewrite (decoded_Ret _ _ Ha0). subst. rewrite <- app_assoc. reflexivity.
    + apply IH in H. exact H.
Qed.

Lemma records_for_Ret_strings info dts recs :
  records_for info dts = Ret recs → forallb is_string dts = true.
Proof.
  revert recs. induction dts as [|dt rest IH]; simpl; intros recs H; [reflexivity|].
  bind_inv H. bind_inv H. rewrite (IH _ Ha0).
  destruct dt; simpl in Ha; try discriminate. reflexivity.
Qed.

Lemma iterate_Ret_iterable j l : iterate j = Ret l → iterable j = true.
Proof. destruct j; simpl; congruence. Qed.

Lemma dump_values_Ret vals : dump_values vals = Ret () → forallb dump_ok vals = true.
Proof.
  induction vals as [|val rest IH]; simpl; [reflexivity|].
  intros H. bind_inv H. rewrite (IH H).
  destruct val as [| | | |[|[] ?]|]; try reflexivity. discriminate.
Qed.

Lemma debug_first_entry_Ret entry : debug_first_entry entry = Ret () → dump_safe entry = true.
Proof.
  unfold dump_safe, debug_first_entry, when_truthy.
  destruct (field entry "blockData") as [bd|]; [|reflexivity].
  destruct (truthy_json bd); [apply dump_values_Ret|reflexivity].
Qed.

(** The loop returns on safe entry lists. *)
Lemma parse_entries_ok entries :
  ∀ debugged schedules,
    entries_safe entries debugged = true →
    parse_entries entries debugged schedules
    = Ret (schedules ++ flat_map expand_entry entries).
Proof.
  induction entries as [|entry rest IH]; intros debugged schedules Hsafe.
  - simpl. rewrite app_nil_r. reflexivity.
  - cbn [entries_safe] in Hsafe. apply andb_prop in Hsafe as [Hnn He].
    apply negb_true_iff, is_null_false in Hnn.
    rewrite (parse_entries_cons _ _ _ _ Hnn).
    cbn [flat_map]. unfold expand_entry at 1.
    destruct (has_dates entry).
    + apply andb_prop in He as [He Hrest]. apply andb_prop in He as [Hdump He].
      unfold dated_entry_safe in He.
      apply andb_prop in He as [He Hblock]. apply andb_prop in He as [Hiter Hstr].
      apply extractBlockInfo_returns_iff in Hblock as [info Hinfo].
      assert (Hdbg : (if debugged then Ret () else debug_first_entry entry) = Ret ()).
      { destruct debugged; [reflexivity|]. apply debug_first_entry_ok, Hdump. }
      rewrite Hdbg, bind_Ret, Hinfo, bind_Ret.
      rewrite (iterate_iterable _ Hiter), bind_Ret.
      rewrite (records_for_ok _ _ Hstr), bind_Ret.
      rewrite (IH _ _ Hrest), (decoded_Ret _ _ Hinfo), <- app_assoc. reflexivity.
    + apply (IH _ _ He).
Qed.

(** It returns on no other. *)
Lemma parse_entries_Ret_safe entries :
  ∀ debugged schedules recs,
    parse_entries entries debugged schedules = Ret recs →
    entries_safe entries debugged = true.
Proof.
  induction entries as [|entry rest IH]; intros debugged schedules recs H;
    [reflexivity|].
  destruct (is_null entry) eqn:Hnull.
  { apply is_null_true in Hnull. subst. discriminate. }
  cbn [entries_safe]. rewrite Hnull. simpl.
  apply is_null_false in Hnull. rewrite (parse_entries_cons _ _ _ _ Hnull) in H.
  destruct (has_dates entry).
  - bind_inv H. bind_inv H. bind_inv H. bind_inv H.
    rewrite (IH _ _ _ H). unfold dated_entry_safe.
    rewrite (iterate_Ret_iterable _ _ Ha1).
    rewrite <- (iterate_Ret_inv _ _ Ha1), (records_for_Ret_strings _ _ _ Ha2).
    assert (Hblock : block_safe (field entry "blockData") = true).
    { apply extractBlockInfo_returns_iff. eexists. exact Ha0. }
    rewrite Hblock. simpl. rewrite !andb_true_r.
    destruct debugged; [reflexivity|]. simpl.
    destruct a. apply debug_first_entry_Ret, Ha.
  - apply (IH _ _ _ H).
Qed.

Lemma parseCalendarConfig_not_null calendarConfig :
  calendarConfig ≠ JNull →
  parseCalendarConfig calendarConfig
  = match entries_of calendarConfig with
    | JArr items => parse_entries items false []
    | _ => Ret []
    end.
Proof.
  intros Hnn. unfold parseCalendarConfig.
  rewrite (prop_not_null _ _ Hnn), bind_Ret. reflexivity.
Qed.

Lemma parseCalendarConfig_sound calendarConfig recs :
  parseCalendarConfig calendarConfig = Ret recs →
  recs = expected_records calendarConfig.
Proof.
  intros H. destruct (is_null calendarConfig) eqn:Hnull.
  { apply is_null_true in Hnull. subst. discriminate. }
  apply is_null_false in Hnull. rewrite (parseCalendarConfig_not_null _ Hnull) in H.
  unfold expected_records, calendar_entries.
  destruct (entries_of calendarConfig); try (injection H as <-; reflexivity).
  apply parse_entries_sound in H. exact H.
Qed.

Lemma parseCalendarConfig_ok calendarConfig :
  calendar_safe calendarConfig = true →
  parseCalendarConfig calendarConfig = Ret (expected_records calendarConfig).
Proof.
  unfold calendar_safe. intros H. apply andb_prop in H as [Hnn Hsafe].
  apply negb_true_iff, is_null_false in Hnn.
  rewrite (parseCalendarConfig_not_null _ Hnn).
  unfold expected_records, calendar_entries in *.
  destruct (entries_of calendarConfig); try reflexivity.
  apply (parse_entries_ok _ _ [] Hsafe).
Qed.

Lemma parseCalendarConfig_returns_iff calendarConfig :
  returns (parseCalendarConfig calendarConfig) ↔ calendar_safe calendarConfig = true.
Proof.
  split.
  - intros [recs H]. unfold calendar_safe.
    destruct (is_null calendarConfig) eqn:Hnull.
    { apply is_null_true in Hnull. subst. discriminate. }
    simpl. apply is_null_false in Hnull.
    rewrite (parseCalendarConfig_not_null _ Hnull) in H. unfold calendar_entries.
    destruct (entries_of calendarConfig); try reflexivity.
    apply (parse_entries_Ret_safe _ _ _ _ H).
  - intros H. eexists. apply parseCalendarConfig_ok, H.
Qed.

Lemma split_head_app sep d rest :
  Forall (λ c, c ≠ sep) (list_ascii_of_string d) →
  split_head sep (d ++ String sep rest)%string = d.
Proof.
  induction d as [|c d IH]; simpl; intros H.
  - rewrite Ascii.eqb_refl. reflexivity.
  - apply Forall_cons in H as [Hc Hd]. apply Ascii.eqb_neq in Hc.
    rewrite Hc, (IH Hd). reflexivity.
Qed.

Lemma expand_entry_dates entry :
  schedule_date <$> expand_entry entry
  = if has_dates entry then date_part <$> elements (dates_json entry) else [].
Proof.
  unfold expand_entry. destruct (has_dates entry); [|reflexivity].
  rewrite <- list_fmap_compose. reflexivity.
Qed.

Lemma expected_records_dates calendarConfig :
  schedule_date <$> expected_records calendarConfig = listed_dates calendarConfig.
Proof.
  unfold expected_records, listed_dates.
  induction (calendar_entries calendarConfig) as [|entry rest IH]; simpl; [reflexivity|].
  rewrite fmap_app, IH, expand_entry_dates. reflexivity.
Qed.

Lemma record_of_available info dt :
  is_available (record_of info dt) = String.eqb (status (record_of info dt)) "SCHEDULED".
Proof. destruct info as [t []]; reflexivity. Qed.

Lemma expected_records_available calendarConfig :
  Forall (λ r, is_available r = String.eqb (status r) "SCHEDULED")
    (expected_records calendarConfig).
Proof.
  unfold expected_records. apply Forall_flat_map, Forall_forall. intros entry _.
  unfold expand_entry. destruct (has_dates entry); [|constructor].
  apply Forall_fmap, Forall_forall. intros dt _. apply record_of_available.
Qed.

(** C2, as stated, fails: an entry that lists two date-times of the same
    day expands to two records with the same date. *)
Lemma parseCalendarConfig_repeats_date :
  parseCalendarConfig repeated_date_calendar
  = Ret [scheduled "2026-01-05" "8:30 PM"; scheduled "2026-01-05" "8:30 PM"]
  ∧ ¬ NoDup (schedule_date
               <$> [scheduled "2026-01-05" "8:30 PM"; scheduled "2026-01-05" "8:30 PM"]).
Proof.
  split; [reflexivity|]. intros H. apply NoDup_cons in H as [Hnotin _].
  apply Hnotin. simpl. apply list_elem_of_here.
Qed.

(** C2 (amended): every record of a returned list satisfies
    [is_available = (status = SCHEDULED)]; the dates of the records are the
    date portions the calendar lists, in order, so the list holds at most
    one record per date exactly when those date portions are pairwise
    distinct. *)
Theorem parseCalendarConfig_invariant (calendarConfig : json)
    (recs : list ScheduleRecord) :
  parseCalendarConfig calendarConfig = Ret recs →
  Forall (λ r, is_available r = String.eqb (status r) "SCHEDULED") recs
  ∧ schedule_date <$> recs = listed_dates calendarConfig
  ∧ (NoDup (schedule_date <$> recs) ↔ NoDup (listed_dates calendarConfig)).
Proof.
  intros H. apply parseCalendarConfig_sound in H. subst recs.
  split; [apply expected_records_available|].
  rewrite expected_records_dates. split; reflexivity.
Qed.

Lemma parseCalendarConfig_invariant_witness :
  Forall (λ r, is_available r = String.eqb (status r) "SCHEDULED")
    [tentative "2026-03-02" "9:00 PM"; tentative "2026-03-01" "9:00 PM";
     scheduled "2026-01-05" "8:30 PM"]
  ∧ NoDup (schedule_date
             <$> [tentative "2026-03-02" "9:00 PM"; tentative "2026-03-01" "9:00 PM";
                  scheduled "2026-01-05" "8:30 PM"]).
Proof.
  assert (H : parseCalendarConfig fan_out_calendar
              = Ret [tentative "2026-03-02" "9:00 PM"; tentative "2026-03-01" "9:00 PM";
                     scheduled "2026-01-05" "8:30 PM"]) by reflexivity.
  destruct (parseCalendarConfig_invariant _ _ H) as (Havail & _ & Hnodup).
  split; [exact Havail|]. apply Hnodup.
  apply (bool_decide_unpack _). vm_compute. exact I.
Defined.

(** C5: the records of a returned list are exactly, entry by entry in
    input order, nothing for an entry whose date-time list is empty or
    absent and otherwise one record per date-time string in input order,
    dated by the text before the ['T'] and all carrying the label and
    status decoded from that entry; and the expansion does return this
    list on every safe calendar. *)
Theorem parseCalendarConfig_expansion (calendarConfig : json) :
  (∀ recs, parseCalendarConfig calendarConfig = Ret recs →
           recs = flat_map expand_entry (calendar_entries calendarConfig))
  ∧ (calendar_safe calendarConfig = true →
     parseCalendarConfig calendarConfig
     = Ret (flat_map expand_entry (calendar_entries calendarConfig)))
  ∧ (∀ entry, has_dates entry = false → expand_entry entry = [])
  ∧ (∀ entry, field entry "eventDates" = None → has_dates entry = false)
  ∧ (∀ entry, dates_json entry = JArr [] → has_dates entry = false)
  ∧ (∀ entry, has_dates entry = true →
       expand_entry entry
       = (λ dt, {| schedule_date := date_part dt;
                   show_time := showTime (decoded entry);
                   status := status_of (isTentative (decoded entry));
                   is_available := negb (isTentative (decoded entry)) |})
           <$> elements (dates_json entry))
  ∧ (∀ d rest, Forall (λ c, c ≠ "T"%char) (list_ascii_of_string d) →
       date_part (JStr (d ++ String "T" rest)%string) = d).
Proof.
  split; [|split; [|split; [|split; [|split; [|split]]]]].
  - intros recs H. apply parseCalendarConfig_sound, H.
  - apply parseCalendarConfig_ok.
  - intros entry H. unfold expand_entry. rewrite H. reflexivity.
  - intros entry H. unfold has_dates, dates_json.
    destruct entry; simpl in *; try reflexivity. rewrite H. reflexivity.
  - intros entry H. unfold has_dates. rewrite H. reflexivity.
  - intros entry H. unfold expand_entry. rewrite H. reflexivity.
  - intros d rest H. apply split_head_app, H.
Qed.

Lemma parseCalendarConfig_expansion_witness :
  parseCalendarConfig
    (JObj [("Values",
            JArr [dated_entry ["2026-03-02T00:00:00"; "2026-03-01T00:00:00"]
                    "9:00 PM" "Disabled Style";
                  dated_entry [] "7:00 PM" "Active Style";
                  dated_entry ["2026-01-05T00:00:00"] "8:30 PM" "Active Style"])])
  = Ret [tentative "2026-03-02" "9:00 PM"; tentative "2026-03-01" "9:00 PM";
         scheduled "2026-01-05" "8:30 PM"].
Proof.
  rewrite (proj1 (proj2 (parseCalendarConfig_expansion _))); reflexivity.
Defined.

(** C4, as stated, fails: a [null] entry in an entry list and a field
    value that is not a string make the decoder and the expansion raise. *)
Lemma core_functions_raise :
  extractBlockInfo (Some null_entry_slot) = Throw TypeError
  ∧ extractBlockInfo (Some numeric_style_slot) = Throw TypeError
  ∧ parseCalendarConfig null_entry_slot = Throw TypeError
  ∧ parseCalendarConfig numeric_date_calendar = Throw TypeError.
Proof. repeat split; reflexivity. Qed.

(** C4 (amended): the decoder returns exactly on the safe slots, with its
    defaults on an empty or absent slot, and the expansion returns exactly
    on the safe calendars, with the empty list when the entry list is not
    a list; on every other input they raise a [TypeError]. *)
Theorem core_functions_return :
  (∀ blockData, returns (extractBlockInfo blockData) ↔ block_safe blockData = true)
  ∧ (∀ blockData, truthy blockData = false →
       extractBlockInfo blockData
       = Ret {| showTime := JStr "Unknown"; isTentative := false |})
  ∧ (∀ calendarConfig,
       returns (parseCalendarConfig calendarConfig) ↔ calendar_safe calendarConfig = true)
  ∧ (∀ calendarConfig,
       calendarConfig ≠ JNull →
       (∀ items, entries_of calendarConfig ≠ JArr items) →
       parseCalendarConfig calendarConfig = Ret [])
  ∧ (∀ blockData, block_safe blockData = false →
       extractBlockInfo blockData = Throw TypeError)
  ∧ (∀ calendarConfig, calendar_safe calendarConfig = false →
       parseCalendarConfig calendarConfig = Throw TypeError).
Proof.
  split; [|split; [|split; [|split; [|split]]]].
  - apply extractBlockInfo_returns_iff.
  - apply extractBlockInfo_falsy.
  - apply parseCalendarConfig_returns_iff.
  - intros calendarConfig Hnn Hnot. rewrite (parseCalendarConfig_not_null _ Hnn).
    destruct (entries_of calendarConfig) as [| | | |items|]; try reflexivity.
    exfalso. apply (Hnot items). reflexivity.
  - intros blockData H.
    destruct (extractBlockInfo blockData) as [info|[]] eqn:E; [|reflexivity].
    assert (Hr : returns (extractBlockInfo blockData)) by (eexists; exact E).
    apply extractBlockInfo_returns_iff in Hr. congruence.
  - intros calendarConfig H.
    destruct (parseCalendarConfig calendarConfig) as [recs|[]] eqn:E; [|reflexivity].
    assert (Hr : returns (parseCalendarConfig calendarConfig)) by (eexists; exact E).
    apply parseCalendarConfig_returns_iff in Hr. congruence.
Qed.

Lemma core_functions_return_witness :
  returns (extractBlockInfo (Some (JObj [("Values", JArr [JStr "8:30 PM"])])))
  ∧ returns (parseCalendarConfig fan_out_calendar)
  ∧ parseCalendarConfig (JObj [("EmbeddedValues", JStr "none")]) = Ret [].
Proof.
  split; [|split].
  - apply (proj1 core_functions_return). reflexivity.
  - apply (proj1 (proj2 (proj2 core_functions_return))). reflexivity.
  - apply (proj1 (proj2 (proj2 (proj2 core_functions_return)))).
    + discriminate.
    + intros items. discriminate.
Defined.

(** ** Calendar locator *)

Lemma calendar_here_candidates obj otherwise :
  calendar_here obj otherwise
  = match here_candidates obj with
    | c :: _ => c
    | [] => otherwise
    end.
Proof.
  unfold calendar_here, here_candidates, when_truthy.
  destruct (field obj "calendarConfig") as [c|]; [destruct (truthy_json c); [reflexivity|]|];
    simpl;
    (destruct (field obj "Fields") as [f|]; [|reflexivity];
     destruct (truthy_json f); [|reflexivity];
     destruct (field f "calendarConfig") as [c'|]; [|reflexivity];
     destruct (truthy_json c'); reflexivity).
Qed.

Lemma here_candidates_truthy obj :
  Forall (λ c, truthy_json c = true) (here_candidates obj).
Proof.
  unfold here_candidates, when_truthy. apply Forall_app. split.
  - destruct (field obj "calendarConfig") as [c|]; [|constructor].
    destruct (truthy_json c) eqn:E; repeat constructor. exact E.
  - destruct (field obj "Fields") as [f|]; [|constructor].
    destruct (truthy_json f); [|constructor].
    destruct (field f "calendarConfig") as [c|]; [|constructor].
    destruct (truthy_json c) eqn:E; repeat constructor. exact E.
Qed.

Lemma calendar_candidates_arr items d :
  calendar_candidates (JArr items) d
  = if (25 <? d)%nat then []
    else flat_map (λ item, calendar_candidates item (S d)) items.
Proof. reflexivity. Qed.

Lemma calendar_candidates_obj entries d :
  calendar_candidates (JObj entries) d
  = if (25 <? d)%nat then []
    else here_candidates (JObj entries)
         ++ flat_map
              (λ kv, if existsb (String.eqb kv.1) skippedKeys then []
                     else calendar_candidates kv.2 (S d))
              entries.
Proof. reflexivity. Qed.

Lemma calendar_candidates_truthy obj :
  ∀ d, Forall (λ c, truthy_json c = true) (calendar_candidates obj d).
Proof.
  induction obj as [| | | |items IH|entries IH] using json_nested_ind;
    intros d; try (simpl; destruct (25 <? d)%nat; constructor).
  - rewrite calendar_candidates_arr. destruct (25 <? d)%nat; [constructor|].
    apply Forall_flat_map. eapply Forall_impl; [exact IH|]. intros item H. apply H.
  - rewrite calendar_candidates_obj. destruct (25 <? d)%nat; [constructor|].
    apply Forall_app. split; [apply here_candidates_truthy|].
    apply Forall_flat_map. eapply Forall_impl; [exact IH|]. intros kv H.
    destruct (existsb _ _); [constructor|apply H].
Qed.

Lemma head_truthy_default l :
  Forall (λ c, truthy_json c = true) l →
  truthy_json (default JNull (head l)) = match l with [] => false | _ => true end.
Proof. destruct l; simpl; [reflexivity|]. intros H. apply Forall_cons in H as [H _]. exact H. Qed.

Lemma findCalendarConfig_arr items d :
  findCalendarConfig (JArr items) d
  = if (25 <? d)%nat then JNull
    else first_truthy (λ item, findCalendarConfig item (S d)) items.
Proof. reflexivity. Qed.

Lemma findCalendarConfig_obj entries d :
  findCalendarConfig (JObj entries) d
  = if (25 <? d)%nat then JNull
    else calendar_here (JObj entries)
           (first_truthy_entry (λ v, findCalendarConfig v (S d)) entries).
Proof. reflexivity. Qed.

Lemma findCalendarConfig_head obj :
  ∀ d, findCalendarConfig obj d = default JNull (head (calendar_candidates obj d)).
Proof.
  induction obj as [| | | |items IH|entries IH] using json_nested_ind;
    intros d; try (simpl; destruct (25 <? d)%nat; reflexivity).
  - rewrite findCalendarConfig_arr, calendar_candidates_arr.
    destruct (25 <? d)%nat; [reflexivity|].
    induction IH as [|x l Hx _ IHl]; simpl; [reflexivity|].
    rewrite Hx.
    pose proof (calendar_candidates_truthy x (S d)) as Ht.
    rewrite (head_truthy_default _ Ht).
    destruct (calendar_candidates x (S d)); simpl; [exact IHl|reflexivity].
  - rewrite findCalendarConfig_obj, calendar_candidates_obj.
    destruct (25 <? d)%nat; [reflexivity|].
    rewrite calendar_here_candidates.
    destruct (here_candidates (JObj entries)) as [|c cs]; [|reflexivity].
    rewrite app_nil_l.
    induction IH as [|[key x] l Hx _ IHl]; [reflexivity|].
    cbn [first_truthy_entry flat_map fst snd] in *.
    destruct (existsb (String.eqb key) skippedKeys); [exact IHl|].
    rewrite Hx.
    pose proof (calendar_candidates_truthy x (S d)) as Ht.
    rewrite (head_truthy_default _ Ht).
    destruct (calendar_candidates x (S d)); simpl; [exact IHl|reflexivity].
Qed.

(** X1: the calendar locator returns the first calendar of the document
    in document order (a node's own [calendarConfig], then the one under
    its [Fields], then its children, without the subtrees under skipped
    keys or below depth 25), and [null] exactly when there is none; what it
    returns is never a falsy value other than [null], so the caller's test
    [if (calendarConfig)] discards nothing. *)
Theorem findCalendarConfig_first_candidate (obj : json) (depth : nat) :
  findCalendarConfig obj depth = default JNull (head (calendar_candidates obj depth))
  ∧ (findCalendarConfig obj depth = JNull ↔ calendar_candidates obj depth = [])
  ∧ truthy_json (findCalendarConfig obj depth)
    = negb (is_null (findCalendarConfig obj depth)).
Proof.
  pose proof (calendar_candidates_truthy obj depth) as Ht.
  rewrite findCalendarConfig_head.
  destruct (calendar_candidates obj depth) as [|c cs]; simpl.
  - repeat split; reflexivity.
  - apply Forall_cons in Ht as [Hc _]. repeat split.
    + intros ->. discriminate.
    + discriminate.
    + rewrite Hc. destruct c; try reflexivity. discriminate.
Qed.

Lemma assoc_filter_not_skipped k entries :
  existsb (String.eqb k) skippedKeys = false →
  assoc k (List.filter not_skipped entries) = assoc k entries.
Proof.
  intros Hk. induction entries as [|[key v] rest IH]; simpl; [reflexivity|].
  unfold not_skipped at 1. simpl fst.
  destruct (String.eqb_spec key k) as [->|Hne].
  - rewrite Hk. simpl. rewrite String.eqb_refl. reflexivity.
  - destruct (existsb (String.eqb key) skippedKeys); simpl; [exact IH|].
    apply String.eqb_neq in Hne. rewrite Hne. exact IH.
Qed.

(** X2: the subtrees under [MetadataFields], [Categories] and
    [Multimedia] have no influence on the result: a mapping and the same
    mapping without those keys give the same calendar. *)
Theorem findCalendarConfig_skips_pruned (entries : list (string * json)) (depth : nat) :
  findCalendarConfig (JObj (List.filter not_skipped entries)) depth
  = findCalendarConfig (JObj entries) depth.
Proof.
  rewrite !findCalendarConfig_obj. destruct (25 <? depth)%nat; [reflexivity|].
  unfold calendar_here, field.
  rewrite !assoc_filter_not_skipped by reflexivity.
  assert (Hloop : ∀ f,
             first_truthy_entry f (List.filter not_skipped entries)
             = first_truthy_entry f entries).
  { intros f. induction entries as [|[key v] rest IH]; [reflexivity|].
    cbn [List.filter first_truthy_entry]. unfold not_skipped at 1. cbn [fst].
    destruct (existsb (String.eqb key) skippedKeys) eqn:E; cbn [negb]; [exact IH|].
    cbn [first_truthy_entry]. rewrite E, IH. reflexivity. }
  rewrite Hloop. reflexivity.
Qed.

(** The documented place of the calendar: a component presentation whose
    [Component.Fields] holds [calendarConfig]. *)
Example findCalendarConfig_in_presentation :
  findCalendarConfig
    (JObj [("Id", JStr "page");
           ("ComponentPresentations",
            JArr [presentation_described "Showtimes";
                  JObj [("Component",
                         JObj [("Fields", JObj [("calendarConfig", sample_calendar)])])]])])
    0
  = sample_calendar.
Proof. reflexivity. Qed.

(** A calendar under a skipped key, or held by a node below depth 25, is
    not found. *)
Example findCalendarConfig_pruned_or_deep :
  findCalendarConfig (JObj [("Multimedia", JObj [("calendarConfig", sample_calendar)])]) 0
  = JNull
  ∧ findCalendarConfig (wrapped 25 (JObj [("calendarConfig", sample_calendar)])) 0
    = sample_calendar
  ∧ findCalendarConfig (wrapped 26 (JObj [("calendarConfig", sample_calendar)])) 0 = JNull.
Proof. repeat split; reflexivity. Qed.

(** ** Block decoder: labels *)

Lemma truthy_JStr s : truthy_json (JStr s) = negb (String.eqb s "").
Proof. reflexivity. Qed.

Lemma or_default_truthy v d : truthy_json d = true → truthy_json (or_default v d) = true.
Proof.
  intros Hd. unfold or_default. destruct v as [j|]; [|exact Hd].
  destruct (truthy_json j) eqn:E; [exact E|exact Hd].
Qed.

Lemma first_or_single_truthy o last :
  truthy_json last = true → truthy_json (first_or_single o last) = true.
Proof. apply or_default_truthy. Qed.

Lemma fast_label_truthy block : truthy_json (fast_label block) = true.
Proof.
  unfold fast_label, when_truthy.
  destruct (fast_field block "eyebrow") as [e|]; [|reflexivity].
  destruct (truthy_json e); [|reflexivity]. apply first_or_single_truthy. reflexivity.
Qed.

Lemma eyebrow_fallback_truthy slot label :
  truthy_json label = true → truthy_json (eyebrow_fallback slot label) = true.
Proof.
  intros Hl. unfold eyebrow_fallback, when_truthy.
  destruct (is_Unknown label); [|exact Hl].
  destruct (truthy_json (findValueByKey slot "eyebrow" 0)) eqn:E; [|exact Hl].
  apply first_or_single_truthy.
  destruct (is_string (findValueByKey slot "eyebrow" 0)); [exact E|reflexivity].
Qed.

Lemma fast_path_label_truthy entries fast :
  fast_path entries = Ret fast → truthy_json (showTime fast) = true.
Proof.
  unfold fast_path.
  destruct entries as [| | | |[|block rest]|]; try (intros H; injection H as <-; reflexivity).
  intros H. bind_inv H. bind_inv H. bind_inv H. injection H as <-. simpl.
  unfold when_truthy. destruct a as [e|]; [|reflexivity].
  destruct (truthy_json e); [|reflexivity]. apply first_or_single_truthy. reflexivity.
Qed.

Lemma extractBlockInfo_Ret_truthy blockData info :
  extractBlockInfo blockData = Ret info → truthy_json (showTime info) = true.
Proof.
  destruct (truthy blockData) eqn:Ht.
  - destruct blockData as [slot|]; [|discriminate]. simpl in Ht.
    rewrite (extractBlockInfo_truthy _ Ht). intros H. bind_inv H. bind_inv H.
    injection H as <-. simpl.
    apply eyebrow_fallback_truthy, (fast_path_label_truthy _ _ Ha).
  - rewrite (extractBlockInfo_falsy _ Ht). intros H. injection H as <-. reflexivity.
Qed.

(** X3: the label of a decoded block is never empty, [null], [false] or
    zero: some truthy value is always reported, "Unknown" in the last
    resort. *)
Theorem extractBlockInfo_label_truthy (blockData : value) (info : BlockInfo) :
  extractBlockInfo blockData = Ret info → truthy_json (showTime info) = true.
Proof. apply extractBlockInfo_Ret_truthy. Qed.

Lemma extractBlockInfo_label_truthy_witness :
  extractBlockInfo (Some (JObj [("EmbeddedValues", JArr [JObj [("eyebrow", strings [""])]])]))
  = Ret {| showTime := JStr "Unknown"; isTentative := false |}
  ∧ truthy_json (JStr "Unknown") = true.
Proof.
  split; [reflexivity|].
  apply (extractBlockInfo_label_truthy
           (Some (JObj [("EmbeddedValues", JArr [JObj [("eyebrow", strings [""])]])]))
           {| showTime := JStr "Unknown"; isTentative := false |}).
  reflexivity.
Defined.

(** X4: a label read on the first entry, unless it is the text "Unknown",
    is the label reported, whatever the rest of the slot holds; and when
    the first entry gives no label, a text found under an "eyebrow" key
    anywhere in the slot is reported. *)
Theorem extractBlockInfo_label_order (slot : json) (info : BlockInfo) :
  truthy_json slot = true →
  extractBlockInfo (Some slot) = Ret info →
  (∀ block, first_entry slot = Some block → is_Unknown (fast_label block) = false →
            showTime info = fast_label block)
  ∧ (∀ text, (∀ block, first_entry slot = Some block → is_Unknown (fast_label block) = true) →
             findValueByKey slot "eyebrow" 0 = JStr text → text ≠ "" →
             showTime info = JStr text).
Proof.
  intros Ht H. rewrite (extractBlockInfo_truthy _ Ht), fast_path_first_entry in H.
  bind_inv H. bind_inv H. injection H as <-. simpl.
  assert (Hfast : showTime a
                  = match first_entry slot with
                    | Some block => fast_label block
                    | None => JStr "Unknown"
                    end).
  { destruct (first_entry slot) as [block|]; [|injection Ha as <-; reflexivity].
    destruct (is_null block); [discriminate|].
    destruct (fast_style_value block) as [[| | |s| |]|]; try discriminate;
      injection Ha as <-; reflexivity. }
  rewrite Hfast. split.
  - intros block -> Hknown. unfold eyebrow_fallback. rewrite Hknown. reflexivity.
  - intros text Hblock Hfound Hne. unfold eyebrow_fallback, when_truthy.
    replace (is_Unknown _) with true
      by (destruct (first_entry slot) as [block|]; [symmetry; eauto|reflexivity]).
    rewrite Hfound. apply String.eqb_neq in Hne. rewrite truthy_JStr, Hne.
    reflexivity.
Qed.

Lemma extractBlockInfo_label_order_witness :
  extractBlockInfo (Some style_decoy)
  = Ret {| showTime := JStr "8:30 PM"; isTentative := true |}
  ∧ extractBlockInfo (Some label_in_header)
    = Ret {| showTime := JStr "7:15 PM"; isTentative := false |}
  ∧ showTime {| showTime := JStr "8:30 PM"; isTentative := true |} = JStr "8:30 PM"
  ∧ showTime {| showTime := JStr "7:15 PM"; isTentative := false |} = JStr "7:15 PM".
Proof.
  split; [reflexivity|]. split; [reflexivity|]. split.
  - apply (proj1 (extractBlockInfo_label_order style_decoy
                    {| showTime := JStr "8:30 PM"; isTentative := true |}
                    eq_refl eq_refl)
             (JObj [("eyebrow", strings ["8:30 PM"]); ("style", strings ["Active Style"])]));
      reflexivity.
  - apply (proj2 (extractBlockInfo_label_order label_in_header
                    {| showTime := JStr "7:15 PM"; isTentative := false |}
                    eq_refl eq_refl)
             "7:15 PM").
    + intros block Hb. discriminate.
    + reflexivity.
    + discriminate.
Defined.

Lemma first_or_single_text_field single text last :
  first_or_single (text_field single text) last
  = if String.eqb text "" then last else JStr text.
Proof. destruct single, text; reflexivity. Qed.

Lemma documented_entry_label wrapper single time style :
  fast_label (documented_entry wrapper single time style)
  = if String.eqb time "" then JStr "Unknown" else JStr time.
Proof.
  rewrite <- (first_or_single_text_field single time (JStr "Unknown")).
  destruct wrapper, single; reflexivity.
Qed.

Lemma documented_entry_style wrapper single time style :
  fast_style_value (documented_entry wrapper single time style) = Some (JStr style).
Proof.
  transitivity (Some (first_or_single (text_field single style) (JStr ""))).
  - destruct wrapper, single; reflexivity.
  - rewrite first_or_single_text_field. destruct style; reflexivity.
Qed.

Lemma documented_slot_find_eyebrow alias wrapper single time style :
  alias ∈ aliasKeys →
  findValueByKey (documented_slot alias wrapper single time style) "eyebrow" 0
  = text_field single time.
Proof.
  intros Halias. unfold aliasKeys in Halias.
  repeat (apply elem_of_cons in Halias as [->|Halias]); [| | |inversion Halias];
    destruct wrapper, single; reflexivity.
Qed.

Lemma documented_slot_find_style alias wrapper single time style :
  alias ∈ aliasKeys →
  findValueByKey (documented_slot alias wrapper single time style) "style" 0
  = text_field single style.
Proof.
  intros Halias. unfold aliasKeys in Halias.
  repeat (apply elem_of_cons in Halias as [->|Halias]); [| | |inversion Halias];
    destruct wrapper, single; reflexivity.
Qed.

Lemma documented_slot_first_entry alias wrapper single time style :
  alias ∈ aliasKeys →
  first_entry (documented_slot alias wrapper single time style)
  = Some (documented_entry wrapper single time style).
Proof.
  intros Halias. unfold aliasKeys in Halias.
  repeat (apply elem_of_cons in Halias as [->|Halias]); [| | |inversion Halias];
    reflexivity.
Qed.

Lemma text_field_truthy single text : truthy_json (text_field single text) = true.
Proof. destruct single; reflexivity. Qed.

Lemma text_field_not_string single text : is_string (text_field single text) = false.
Proof. destruct single; reflexivity. Qed.

(** X5: on every documented block shape (any of the three alias keys,
    fields directly on the entry or under [Fields], text as [Values] or
    [Value]) the decoder reports the label, "Unknown" in place of an empty
    one, and reports the slot tentative iff the style text contains
    "disabled" in any letter case. *)
Theorem extractBlockInfo_documented (alias : string) (wrapper single : bool)
    (time style : string) :
  alias ∈ aliasKeys →
  extractBlockInfo (Some (documented_slot alias wrapper single time style))
  = Ret {| showTime := if String.eqb time "" then JStr "Unknown" else JStr time;
           isTentative := includes (toLowerCase style) "disabled" |}.
Proof.
  intros Halias.
  rewrite extractBlockInfo_truthy by reflexivity.
  rewrite fast_path_first_entry, (documented_slot_first_entry _ _ _ _ _ Halias).
  replace (is_null (documented_entry wrapper single time style)) with false
    by (destruct wrapper; reflexivity).
  rewrite documented_entry_style, documented_entry_label, bind_Ret.
  cbn [showTime isTentative].
  assert (Hlabel : eyebrow_fallback (documented_slot alias wrapper single time style)
                     (if String.eqb time "" then JStr "Unknown" else JStr time)
                   = (if String.eqb time "" then JStr "Unknown" else JStr time)).
  { unfold eyebrow_fallback, when_truthy.
    destruct (is_Unknown _); [|reflexivity].
    rewrite (documented_slot_find_eyebrow _ _ _ _ _ Halias).
    rewrite text_field_truthy, text_field_not_string.
    apply first_or_single_text_field. }
  rewrite Hlabel.
  destruct (includes (toLowerCase style) "disabled") eqn:Hdis.
  - reflexivity.
  - rewrite style_fallback_false. unfold deep_style_value, when_truthy.
    rewrite (documented_slot_find_style _ _ _ _ _ Halias).
    rewrite text_field_truthy, text_field_not_string, first_or_single_text_field.
    replace (if String.eqb style "" then JStr "" else JStr style) with (JStr style)
      by (destruct style; reflexivity).
    rewrite style_disabled_text, Hdis. reflexivity.
Qed.

Lemma extractBlockInfo_documented_witness :
  extractBlockInfo
    (Some (JObj [("LinkedComponentValues",
                  JArr [JObj [("Fields",
                              JObj [("eyebrow", JObj [("Value", JStr "9:00 PM")]);
                                    ("style", JObj [("Value", JStr "DISABLED style")])])]])]))
  = Ret {| showTime := JStr "9:00 PM"; isTentative := true |}.
Proof.
  apply (extractBlockInfo_documented "LinkedComponentValues" true true
           "9:00 PM" "DISABLED style").
  apply (bool_decide_unpack _). vm_compute. exact I.
Defined.

(** ** Calendar expansion: records *)

Lemma split_head_no_sep sep s :
  Forall (λ c, c ≠ sep) (list_ascii_of_string (split_head sep s)).
Proof.
  induction s as [|c s IH]; simpl; [constructor|].
  destruct (Ascii.eqb_spec c sep) as [->|Hne]; simpl; constructor; assumption.
Qed.

Lemma decoded_label_truthy entry : truthy_json (showTime (decoded entry)) = true.
Proof.
  unfold decoded.
  destruct (extractBlockInfo (field entry "blockData")) as [info|e] eqn:E; [|reflexivity].
  apply (extractBlockInfo_Ret_truthy _ _ E).
Qed.

(** X6: every record of a returned list has status SCHEDULED or
    TENTATIVE, a label that is truthy (never empty or [null]), and a date
    that contains no ['T']. *)
Theorem parseCalendarConfig_records (calendarConfig : json) (recs : list ScheduleRecord) :
  parseCalendarConfig calendarConfig = Ret recs →
  Forall
    (λ r, (status r = "SCHEDULED" ∨ status r = "TENTATIVE")
          ∧ truthy_json (show_time r) = true
          ∧ Forall (λ c, c ≠ "T"%char) (list_ascii_of_string (schedule_date r)))
    recs.
Proof.
  intros H. apply parseCalendarConfig_sound in H. subst recs.
  unfold expected_records. apply Forall_flat_map, Forall_forall. intros entry _.
  unfold expand_entry. destruct (has_dates entry); [|constructor].
  apply Forall_fmap, Forall_forall. intros dt _. simpl. split; [|split].
  - destruct (isTentative (decoded entry)); simpl; auto.
  - apply decoded_label_truthy.
  - destruct dt; simpl; try constructor. apply split_head_no_sep.
Qed.

Lemma parseCalendarConfig_records_witness :
  parseCalendarConfig fan_out_calendar
  = Ret [tentative "2026-03-02" "9:00 PM"; tentative "2026-03-01" "9:00 PM";
         scheduled "2026-01-05" "8:30 PM"]
  ∧ Forall
      (λ r, (status r = "SCHEDULED" ∨ status r = "TENTATIVE")
            ∧ truthy_json (show_time r) = true
            ∧ Forall (λ c, c ≠ "T"%char) (list_ascii_of_string (schedule_date r)))
      [tentative "2026-03-02" "9:00 PM"; tentative "2026-03-01" "9:00 PM";
       scheduled "2026-01-05" "8:30 PM"].
Proof.
  split; [reflexivity|].
  apply (parseCalendarConfig_records fan_out_calendar). reflexivity.
Defined.

Lemma entries_safe_debugged entries :
  ∀ debugged, entries_safe entries debugged = true → entries_safe entries true = true.
Proof.
  induction entries as [|entry rest IH]; intros debugged H; [reflexivity|].
  cbn [entries_safe] in *. apply andb_prop in H as [Hnn H]. rewrite Hnn. simpl.
  destruct (has_dates entry).
  - apply andb_prop in H as [H Hrest]. apply andb_prop in H as [_ Hsafe].
    rewrite Hsafe, Hrest. reflexivity.
  - apply (IH _ H).
Qed.

Lemma entries_safe_app first second :
  ∀ debugged,
    entries_safe first debugged = true → entries_safe second false = true →
    entries_safe (first ++ second) debugged = true.
Proof.
  induction first as [|entry rest IH]; intros debugged H1 H2.
  - simpl. destruct debugged; [apply (entries_safe_debugged _ _ H2)|exact H2].
  - cbn [entries_safe app] in *. apply andb_prop in H1 as [Hnn H1]. rewrite Hnn. simpl.
    destruct (has_dates entry).
    + apply andb_prop in H1 as [H1 Hrest]. rewrite H1. simpl. apply (IH _ Hrest H2).
    + apply (IH _ H1 H2).
Qed.

Lemma parseCalendarConfig_calendar_of entries :
  parseCalendarConfig (calendar_of entries) = parse_entries entries false [].
Proof. reflexivity. Qed.

(** X7: expansion composes: when two entry lists expand, separately, to
    two record lists, their concatenation expands to the concatenation of
    the record lists. *)
Theorem parseCalendarConfig_app (first second : list json)
    (recs1 recs2 : list ScheduleRecord) :
  parseCalendarConfig (calendar_of first) = Ret recs1 →
  parseCalendarConfig (calendar_of second) = Ret recs2 →
  parseCalendarConfig (calendar_of (first ++ second)) = Ret (recs1 ++ recs2).
Proof.
  rewrite !parseCalendarConfig_calendar_of. intros H1 H2.
  pose proof (parse_entries_Ret_safe _ _ _ _ H1) as S1.
  pose proof (parse_entries_Ret_safe _ _ _ _ H2) as S2.
  apply parse_entries_sound in H1, H2. simpl in H1, H2. subst.
  rewrite (parse_entries_ok _ _ [] (entries_safe_app _ _ _ S1 S2)).
  simpl. rewrite flat_map_app. reflexivity.
Qed.

Lemma parseCalendarConfig_app_witness :
  parseCalendarConfig
    (calendar_of
       ([dated_entry ["2026-03-02T00:00:00"] "9:00 PM" "Disabled Style"]
        ++ [dated_entry ["2026-01-05T00:00:00"] "8:30 PM" "Active Style"]))
  = Ret ([tentative "2026-03-02" "9:00 PM"] ++ [scheduled "2026-01-05" "8:30 PM"]).
Proof.
  apply (parseCalendarConfig_app
           [dated_entry ["2026-03-02T00:00:00"] "9:00 PM" "Disabled Style"]
           [dated_entry ["2026-01-05T00:00:00"] "8:30 PM" "Active Style"]);
    reflexivity.
Defined.

(** The converse fails: the diagnostic dump only looks at the first dated
    entry, so a list can expand while its tail, alone, raises. *)
Example parseCalendarConfig_tail_raises :
  let dumpable := dated_entry ["2026-03-02T00:00:00"] "9:00 PM" "Active Style" in
  let undumpable :=
    JObj [("eventDates", JObj [("DateTimeValues", JArr [JStr "2026-03-03T00:00:00"])]);
          ("blockData", JObj [("tags", JArr [JNull])])] in
  parseCalendarConfig (calendar_of [dumpable; undumpable])
  = Ret [scheduled "2026-03-02" "9:00 PM";
         {| schedule_date := "2026-03-03"; show_time := JStr "Unknown";
            status := "SCHEDULED"; is_available := true |}]
  ∧ parseCalendarConfig (calendar_of [undumpable]) = Throw TypeError.
Proof. split; reflexivity. Qed.

(** ** Closure detector: documents *)

Lemma scan_presentations_app_true ps more :
  scan_presentations ps = Ret true → scan_presentations (ps ++ more) = Ret true.
Proof.
  induction ps as [|cp rest IH]; [discriminate|].
  cbn [scan_presentations app]. intros H.
  bind_inv H. rewrite Ha, bind_Ret. bind_inv H. rewrite Ha0, bind_Ret.
  bind_inv H. rewrite Ha1, bind_Ret. destruct a1; [reflexivity|]. apply IH, H.
Qed.

Lemma checkTemporarilyClosed_page ps others :
  checkTemporarilyClosed (page ps others)
  = match scan_presentations ps with
    | Ret found => found
    | Throw _ => false
    end.
Proof. reflexivity. Qed.

(** X8: a closure marker that the detector reached cannot be hidden by
    what follows it: appending presentations, malformed or not, to a
    document found closed leaves it closed. *)
Theorem checkTemporarilyClosed_app (ps more : list json) (others : list (string * json)) :
  checkTemporarilyClosed (page ps others) = true →
  checkTemporarilyClosed (page (ps ++ more) others) = true.
Proof.
  rewrite !checkTemporarilyClosed_page.
  destruct (scan_presentations ps) as [found|e] eqn:E; [|discriminate].
  intros ->. rewrite (scan_presentations_app_true _ _ E). reflexivity.
Qed.

Lemma checkTemporarilyClosed_app_witness :
  checkTemporarilyClosed
    (page ([presentation_described "Temporarily Closed"] ++ [JNull; JNum 3])
       [("calendarConfig", sample_calendar)])
  = true.
Proof.
  apply (checkTemporarilyClosed_app [presentation_described "Temporarily Closed"]).
  reflexivity.
Defined.

Lemma presentation_described_ok text : presentation_ok (presentation_described text) = true.
Proof. destruct text; reflexivity. Qed.

Lemma presentation_described_mentions text :
  existsb mentions_closure (elements (features_json (presentation_described text)))
  = includes (toLowerCase text) marker.
Proof.
  destruct text as [|c text]; [reflexivity|].
  cbn [existsb elements]. unfold features_json. cbn -[mentions_closure].
  unfold mentions_closure, description_of. cbn -[includes toLowerCase].
  apply orb_false_r.
Qed.

(** X9: on a document of the documented shape, presentations each linking
    one feature with a description, the detector answers [true] iff one of
    the descriptions contains "temporarily closed" in any letter case,
    whatever other fields the document has. *)
Theorem checkTemporarilyClosed_documented (texts : list string)
    (others : list (string * json)) :
  checkTemporarilyClosed (page (presentation_described <$> texts) others)
  = existsb (λ text, includes (toLowerCase text) marker) texts.
Proof.
  rewrite checkTemporarilyClosed_page.
  rewrite scan_presentations_ok.
  - induction texts as [|text rest IH]; [reflexivity|].
    cbn [fmap list_fmap existsb]. rewrite presentation_described_mentions.
    f_equal. exact IH.
  - induction texts as [|text rest IH]; [reflexivity|].
    cbn [fmap list_fmap forallb]. rewrite presentation_described_ok. exact IH.
Qed.

(** ** Snapshot differ: edge cases *)

Lemma find_app {A} (f : A → bool) (l1 l2 : list A) :
  List.find f (l1 ++ l2)
  = match List.find f l1 with
    | Some x => Some x
    | None => List.find f l2
    end.
Proof. induction l1 as [|x l1 IH]; simpl; [reflexivity|]. destruct (f x); auto. Qed.

(** [Map.set] in a loop keeps, for each date, the last record set. *)
Lemma existingMap_lookup_last (existingSchedules : list ScheduleRecord) (date : string) :
  ∀ m : gmap string ScheduleRecord,
    foldl (λ m existing, <[schedule_date existing := existing]> m) m existingSchedules
      !! date
    = match prior_at (reverse existingSchedules) date with
      | Some existing => Some existing
      | None => m !! date
      end.
Proof.
  unfold prior_at.
  induction existingSchedules as [|e l IH]; intros m; [reflexivity|].
  cbn [foldl]. rewrite IH, reverse_cons, find_app.
  destruct (List.find _ (reverse l)); [reflexivity|]. simpl.
  destruct (String.eqb_spec (schedule_date e) date) as [<-|Hne].
  - apply lookup_insert_eq.
  - apply lookup_insert_ne, Hne.
Qed.

Lemma detectChanges_events showConfig newRecords priorRecords :
  detectChanges showConfig newRecords priorRecords
  = flat_map (events_for_new showConfig (reverse priorRecords)) newRecords
    ++ flat_map (events_for_prior showConfig newRecords) priorRecords.
Proof.
  rewrite detectChanges_flat_map. f_equal.
  - apply flat_map_ext. intros newRec. unfold compare_new, events_for_new.
    rewrite existingMap_lookup_last, lookup_empty.
    destruct (prior_at (reverse priorRecords) (schedule_date newRec)) as [existing|];
      [|reflexivity].
    destruct (strict_eq _ _), (String.eqb _ _); reflexivity.
  - apply flat_map_ext. intros existing. apply compare_existing_events.
Qed.

(** X10: for every input, also with several prior records on one date,
    the differ compares each new record with the last prior record of its
    date, and reports a removal for each prior record whose date is the
    date of no new record. *)
Theorem detectChanges_last_prior (showConfig : ShowConfig)
    (newRecords priorRecords : list ScheduleRecord) :
  detectChanges showConfig newRecords priorRecords
  = flat_map (events_for_new showConfig (reverse priorRecords)) newRecords
    ++ flat_map (events_for_prior showConfig newRecords) priorRecords.
Proof. apply detectChanges_events. Qed.

Example detectChanges_duplicate_prior :
  detectChanges sample_show [scheduled "2026-01-05" "8:30 PM"]
    [scheduled "2026-01-05" "8:30 PM"; scheduled "2026-01-05" "8:00 PM"]
  = [time_changed sample_show (scheduled "2026-01-05" "8:00 PM")
       (scheduled "2026-01-05" "8:30 PM")].
Proof. vm_compute. reflexivity. Qed.

(** X11: on a first run, with no prior snapshot, every new record is
    reported as an addition, in order; with an empty extraction every
    prior record is reported as a removal, in order. *)
Theorem detectChanges_empty_side (showConfig : ShowConfig) (records : list ScheduleRecord) :
  detectChanges showConfig records [] = added showConfig <$> records
  ∧ detectChanges showConfig [] records = removed showConfig <$> records.
Proof.
  rewrite !detectChanges_events. split.
  - simpl. rewrite app_nil_r.
    induction records as [|r l IH]; [reflexivity|]. simpl. rewrite IH. reflexivity.
  - simpl. induction records as [|r l IH]; [reflexivity|].
    cbn [flat_map fmap list_fmap]. rewrite IH. reflexivity.
Qed.

Lemma flat_map_nil {A B} (f : A → list B) (l : list A) :
  (∀ x, In x l → f x = []) → flat_map f l = [].
Proof.
  induction l as [|x l IH]; intros H; [reflexivity|]. simpl.
  rewrite (H x (or_introl eq_refl)), IH; [reflexivity|].
  intros y Hy. apply H. right. exact Hy.
Qed.

Lemma strict_eq_refl j : primitive j = true → strict_eq j j = true.
Proof.
  destruct j; simpl; try discriminate; intros _; try reflexivity.
  - destruct b; reflexivity.
  - apply Qeq_bool_iff. reflexivity.
  - apply String.eqb_refl.
Qed.

Lemma prior_at_member priorRecords r :
  NoDup (schedule_date <$> priorRecords) → r ∈ priorRecords →
  prior_at priorRecords (schedule_date r) = Some r.
Proof.
  unfold prior_at. induction priorRecords as [|e l IH]; intros Hnd Hin.
  - inversion Hin.
  - rewrite fmap_cons in Hnd. apply NoDup_cons in Hnd as [Hnotin Hnd].
    apply elem_of_cons in Hin as [->|Hin].
    + simpl. rewrite String.eqb_refl. reflexivity.
    + simpl. destruct (String.eqb_spec (schedule_date e) (schedule_date r)) as [Heq|_].
      * exfalso. apply Hnotin. rewrite Heq. apply list_elem_of_fmap. eauto.
      * apply (IH Hnd Hin).
Qed.

(** X12: no change, no event: when the new records are the prior records,
    in any order, with one record per date and labels that are not arrays
    or objects, the differ reports nothing. *)
Theorem detectChanges_unchanged (showConfig : ShowConfig)
    (newRecords priorRecords : list ScheduleRecord) :
  NoDup (schedule_date <$> priorRecords) →
  newRecords ≡ₚ priorRecords →
  Forall (λ r, primitive (show_time r) = true) priorRecords →
  detectChanges showConfig newRecords priorRecords = [].
Proof.
  intros Hnd Hperm Hprim.
  rewrite detectChanges_flat_map. apply app_nil. split.
  - apply flat_map_nil. intros r Hin. rewrite (compare_new_events _ _ _ Hnd).
    unfold events_for_new.
    assert (Hr : r ∈ priorRecords) by (rewrite <- Hperm; apply list_elem_of_In, Hin).
    rewrite (prior_at_member _ _ Hnd Hr).
    rewrite Forall_forall in Hprim.
    rewrite (strict_eq_refl _ (Hprim _ Hr)), String.eqb_refl. reflexivity.
  - apply flat_map_nil. intros e Hin. rewrite compare_existing_events.
    unfold events_for_prior.
    assert (He : e ∈ newRecords) by (rewrite Hperm; apply list_elem_of_In, Hin).
    replace (existsb _ newRecords) with true; [reflexivity|].
    symmetry. apply existsb_exists. exists e. split; [apply list_elem_of_In, He|].
    apply String.eqb_refl.
Qed.

Lemma detectChanges_unchanged_witness :
  sample_prior ≡ₚ reverse sample_prior
  ∧ detectChanges sample_show (reverse sample_prior) sample_prior = [].
Proof.
  assert (Hperm : reverse sample_prior ≡ₚ sample_prior) by apply reverse_Permutation.
  split; [symmetry; exact Hperm|].
  apply (detectChanges_unchanged sample_show (reverse sample_prior) sample_prior).
  - apply (bool_decide_unpack _). vm_compute. exact I.
  - exact Hperm.
  - repeat constructor.
Defined.

Lemma flat_map_length_le {A B} (f : A → list B) (k : nat) (l : list A) :
  (∀ x, (length (f x) ≤ k)%nat) → (length (flat_map f l) ≤ k * length l)%nat.
Proof.
  intros H. induction l as [|x l IH]; simpl; [lia|].
  rewrite length_app. specialize (H x). lia.
Qed.

Lemma compare_new_entity showConfig m newRec :
  Forall (λ ev, change_type ev = "ENTERTAINMENT"
                ∧ entity_id ev = show_id showConfig
                ∧ entity_name ev = show_name showConfig)
    (compare_new showConfig m [] newRec)
  ∧ (length (compare_new showConfig m [] newRec) ≤ 2)%nat.
Proof.
  unfold compare_new. destruct (m !! schedule_date newRec) as [existing|].
  - destruct (strict_eq _ _), (String.eqb _ _); simpl; split; repeat constructor.
  - simpl. split; repeat constructor.
Qed.

Lemma compare_existing_entity showConfig s existing :
  Forall (λ ev, change_type ev = "ENTERTAINMENT"
                ∧ entity_id ev = show_id showConfig
                ∧ entity_name ev = show_name showConfig)
    (compare_existing showConfig s [] existing)
  ∧ (length (compare_existing showConfig s [] existing) ≤ 1)%nat.
Proof.
  unfold compare_existing. destruct (bool_decide _); simpl; split; repeat constructor.
Qed.

(** X13: for every input, every event carries the category
    "ENTERTAINMENT" and the id and name of the show it was computed for,
    and there are at most two events per new record plus one per prior
    record. *)
Theorem detectChanges_events_bound (showConfig : ShowConfig)
    (newRecords priorRecords : list ScheduleRecord) :
  Forall (λ ev, change_type ev = "ENTERTAINMENT"
                ∧ entity_id ev = show_id showConfig
                ∧ entity_name ev = show_name showConfig)
    (detectChanges showConfig newRecords priorRecords)
  ∧ (length (detectChanges showConfig newRecords priorRecords)
     ≤ 2 * length newRecords + length priorRecords)%nat.
Proof.
  rewrite detectChanges_flat_map. split.
  - apply Forall_app. split; apply Forall_flat_map, Forall_forall; intros r _.
    + apply compare_new_entity.
    + apply compare_existing_entity.
  - rewrite length_app.
    pose proof (flat_map_length_le
                  (compare_new showConfig
                     (foldl (λ m existing, <[schedule_date existing := existing]> m) ∅
                        priorRecords) [])
                  2 newRecords (λ r, proj2 (compare_new_entity _ _ r))) as H1.
    pose proof (flat_map_length_le
                  (compare_existing showConfig
                     (list_to_set (schedule_date <$> newRecords)) [])
                  1 priorRecords (λ r, proj2 (compare_existing_entity _ _ r))) as H2.
    lia.
Qed.

(** ** Upsert batches *)

Lemma slice_batch {A} i (records : list A) :
  slice i (i + batchSize) records = take batchSize (drop i records).
Proof. unfold slice. f_equal. lia. Qed.

Lemma batches_from_concat {A} (records : list A) :
  ∀ fuel i, (length records - i ≤ fuel)%nat →
            concat (batches_from fuel i records) = drop i records.
Proof.
  induction fuel as [|fuel IH]; intros i Hfuel.
  - simpl. symmetry. apply drop_ge. lia.
  - cbn [batches_from]. destruct (Nat.ltb_spec i (length records)) as [Hlt|Hge].
    + cbn [concat]. rewrite IH by (unfold batchSize; lia). rewrite slice_batch.
      rewrite <- (drop_drop records batchSize i). apply take_drop.
    + simpl. symmetry. apply drop_ge. lia.
Qed.

Lemma batches_from_sizes {A} (records : list A) :
  ∀ fuel i, Forall (λ batch, (1 ≤ length batch ≤ batchSize)%nat)
              (batches_from fuel i records).
Proof.
  induction fuel as [|fuel IH]; intros i; [constructor|].
  cbn [batches_from]. destruct (Nat.ltb_spec i (length records)) as [Hlt|Hge];
    [|constructor].
  constructor; [|apply IH].
  rewrite slice_batch, length_take, length_drop. unfold batchSize. lia.
Qed.

Lemma batches_from_count {A} (records : list A) :
  ∀ fuel i, (length records - i ≤ fuel)%nat →
            length (batches_from fuel i records)
            = ((length records - i + (batchSize - 1)) / batchSize)%nat.
Proof.
  unfold batchSize.
  induction fuel as [|fuel IH]; intros i Hfuel.
  - simpl. replace (length records - i)%nat with 0%nat by lia. reflexivity.
  - cbn [batches_from]. destruct (Nat.ltb_spec i (length records)) as [Hlt|Hge].
    + cbn [length]. unfold batchSize. rewrite IH by lia.
      destruct (Nat.le_gt_cases (i + 100) (length records)) as [Hfull|Hpart].
      * replace (length records - i + (100 - 1))%nat
          with (length records - (i + 100) + (100 - 1) + 1 * 100)%nat by lia.
        rewrite Nat.div_add by lia. lia.
      * replace (length records - (i + 100))%nat with 0%nat by lia.
        replace ((0 + (100 - 1)) / 100)%nat with 0%nat by reflexivity.
        apply (Nat.div_unique _ _ 1 (length records - i - 1)); lia.
    + simpl. replace (length records - i)%nat with 0%nat by lia. reflexivity.
Qed.

(** X14: the batches the upsert loop forms are the records, in order and
    with nothing lost or repeated; each batch holds between 1 and 100
    records, so no empty batch is ever sent; and there are
    [ceil (n / 100)] of them for [n] records. *)
Theorem batches_partition {A} (records : list A) :
  concat (batches records) = records
  ∧ Forall (λ batch, (1 ≤ length batch ≤ 100)%nat) (batches records)
  ∧ length (batches records) = ((length records + 99) / 100)%nat.
Proof.
  unfold batches. split; [|split].
  - rewrite batches_from_concat by lia. apply drop_0.
  - apply batches_from_sizes.
  - rewrite batches_from_count by lia. unfold batchSize. f_equal. lia.
Qed.

Example batches_of_250 :
  length <$> batches (replicate 250 "r") = [100; 100; 50]%nat.
Proof. vm_compute. reflexivity. Qed.

(** The batches of the upsert records carry one record per extracted
    date. *)
Lemma upsert_records_dates showConfig now newSchedules :
  up_schedule_date <$> concat (batches (upsert_records showConfig now newSchedules))
  = schedule_date <$> newSchedules.
Proof.
  unfold batches. rewrite (batches_from_concat _ _ 0) by lia. rewrite drop_0.
  unfold upsert_records. rewrite <- list_fmap_compose. reflexivity.
Qed.

(** ** Next and last date *)

Lemma compare_not_Gt_trans a :
  ∀ b c, String.compare a b ≠ Gt → String.compare b c ≠ Gt → String.compare a c ≠ Gt.
Proof.
  induction a as [|x a IH]; intros [|y b] [|z c]; simpl; try congruence.
  unfold Ascii.compare.
  destruct (N.compare_spec (Ascii.N_of_ascii x) (Ascii.N_of_ascii y)),
           (N.compare_spec (Ascii.N_of_ascii y) (Ascii.N_of_ascii z)),
           (N.compare_spec (Ascii.N_of_ascii x) (Ascii.N_of_ascii z));
    try congruence; try lia.
  apply IH.
Qed.

Lemma leb_not_Gt a b : String.leb a b = true ↔ String.compare a b ≠ Gt.
Proof. unfold String.leb. destruct (String.compare a b); split; congruence. Qed.

#[global] Instance str_le_trans : Transitive str_le.
Proof.
  intros a b c. unfold str_le. rewrite !leb_not_Gt. apply compare_not_Gt_trans.
Qed.

#[global] Instance str_le_total : Total str_le.
Proof. intros a b. apply String.leb_total. Qed.

#[global] Instance str_le_antisym : AntiSymm (=) str_le.
Proof. intros a b. apply String.leb_antisym. Qed.

Lemma str_le_refl a : str_le a a.
Proof. destruct (str_le_total a a); assumption. Qed.

Lemma futureDates_elem_of today newSchedules d :
  d ∈ futureDates today newSchedules
  ↔ d ∈ schedule_date <$> newSchedules ∧ str_le today d.
Proof.
  unfold futureDates. rewrite merge_sort_Permutation, list_elem_of_filter. tauto.
Qed.

Lemma futureDates_sorted today newSchedules :
  StronglySorted str_le (futureDates today newSchedules).
Proof. apply StronglySorted_merge_sort; apply _. Qed.

Lemma or_null_Some o d : or_null o = Some d → o = Some d ∧ d ≠ "".
Proof.
  destruct o as [s|]; simpl; [|discriminate].
  destruct (String.eqb_spec s ""); [discriminate|]. intros H. injection H as ->. auto.
Qed.

Lemma futureDates_head_least today newSchedules d :
  head (futureDates today newSchedules) = Some d →
  ∀ d', d' ∈ futureDates today newSchedules → str_le d d'.
Proof.
  intros Hhead d' Hin. pose proof (futureDates_sorted today newSchedules) as Hs.
  apply head_Some in Hhead as [rest Heq]. rewrite Heq in Hs, Hin.
  apply StronglySorted_cons in Hs as [Hall _]. rewrite Forall_forall in Hall.
  apply elem_of_cons in Hin as [->|Hin]; [apply str_le_refl|auto].
Qed.

Lemma futureDates_last_greatest today newSchedules d :
  last (futureDates today newSchedules) = Some d →
  ∀ d', d' ∈ futureDates today newSchedules → str_le d' d.
Proof.
  intros Hlast d' Hin. pose proof (futureDates_sorted today newSchedules) as Hs.
  apply last_Some in Hlast as [front Heq]. rewrite Heq in Hs, Hin.
  apply elem_of_app in Hin as [Hin|Hin].
  - apply (StronglySorted_app_1_elem_of _ _ _ _ _ Hs Hin). apply list_elem_of_here.
  - apply list_elem_of_singleton in Hin as ->. apply str_le_refl.
Qed.

(** X15: the next scheduled date, when there is one, is a date of the
    extraction that is not before today and is the earliest such date; the
    last scheduled date is the latest such date; the next is never after
    the last; and, today being a non-empty text, both are [null] exactly
    when no date of the extraction is today or later. *)
Theorem next_last_scheduled_date (today : string) (newSchedules : list ScheduleRecord) :
  (∀ d, next_scheduled_date today newSchedules = Some d →
        d ∈ schedule_date <$> newSchedules ∧ str_le today d
        ∧ ∀ d', d' ∈ schedule_date <$> newSchedules → str_le today d' → str_le d d')
  ∧ (∀ d, last_scheduled_date today newSchedules = Some d →
          d ∈ schedule_date <$> newSchedules ∧ str_le today d
          ∧ ∀ d', d' ∈ schedule_date <$> newSchedules → str_le today d' → str_le d' d)
  ∧ (∀ next last, next_scheduled_date today newSchedules = Some next →
                  last_scheduled_date today newSchedules = Some last →
                  str_le next last)
  ∧ (today ≠ "" →
     (next_scheduled_date today newSchedules = None
      ↔ ∀ d, d ∈ schedule_date <$> newSchedules → ¬ str_le today d)
     ∧ (last_scheduled_date today newSchedules = None
        ↔ next_scheduled_date today newSchedules = None)).
Proof.
  unfold next_scheduled_date, last_scheduled_date.
  assert (Hne : today ≠ "" → ∀ d, d ∈ futureDates today newSchedules → d ≠ "").
  { intros Htoday d Hd ->. apply futureDates_elem_of in Hd as [_ Hle].
    apply Htoday. symmetry. apply (anti_symm str_le); [|exact Hle].
    unfold str_le. destruct today; reflexivity. }
  split; [|split; [|split]].
  - intros d H. apply or_null_Some in H as [H _].
    assert (Hin : d ∈ futureDates today newSchedules).
    { apply head_Some in H as [rest ->]. apply list_elem_of_here. }
    apply futureDates_elem_of in Hin as [Hd Hle]. split; [exact Hd|]. split; [exact Hle|].
    intros d' Hd' Hle'. apply (futureDates_head_least _ _ _ H).
    apply futureDates_elem_of. auto.
  - intros d H. apply or_null_Some in H as [H _].
    assert (Hin : d ∈ futureDates today newSchedules).
    { apply last_Some in H as [front ->]. apply elem_of_app. right. apply list_elem_of_here. }
    apply futureDates_elem_of in Hin as [Hd Hle]. split; [exact Hd|]. split; [exact Hle|].
    intros d' Hd' Hle'. apply (futureDates_last_greatest _ _ _ H).
    apply futureDates_elem_of. auto.
  - intros next lst Hn Hl. apply or_null_Some in Hn as [Hn _], Hl as [Hl _].
    apply (futureDates_head_least _ _ _ Hn).
    apply last_Some in Hl as [front ->]. apply elem_of_app. right. apply list_elem_of_here.
  - intros Htoday. specialize (Hne Htoday).
    assert (Hhead : or_null (head (futureDates today newSchedules)) = None
                    ↔ futureDates today newSchedules = []).
    { destruct (futureDates today newSchedules) as [|d rest] eqn:E; simpl; [tauto|].
      assert (Hd : d ≠ "") by (apply Hne; apply list_elem_of_here).
      apply String.eqb_neq in Hd. rewrite Hd. split; discriminate. }
    assert (Hlast : or_null (last (futureDates today newSchedules)) = None
                    ↔ futureDates today newSchedules = []).
    { destruct (last (futureDates today newSchedules)) as [d|] eqn:E.
      - assert (Hin : d ∈ futureDates today newSchedules).
        { apply last_Some in E as [front ->]. apply elem_of_app. right.
          apply list_elem_of_here. }
        pose proof (Hne _ Hin) as Hd. apply String.eqb_neq in Hd. simpl. rewrite Hd.
        split; [discriminate|]. intros Hnil. rewrite Hnil in Hin. inversion Hin.
      - apply last_None in E. simpl. tauto. }
    split.
    + rewrite Hhead. split.
      * intros Hnil d Hd Hle.
        assert (Hin : d ∈ futureDates today newSchedules)
          by (apply futureDates_elem_of; auto).
        rewrite Hnil in Hin. inversion Hin.
      * intros Hnone. destruct (futureDates today newSchedules) as [|d rest] eqn:E;
          [reflexivity|].
        assert (Hin : d ∈ futureDates today newSchedules)
          by (rewrite E; apply list_elem_of_here).
        apply futureDates_elem_of in Hin as [Hd Hle]. exfalso. apply (Hnone d Hd Hle).
    + rewrite Hhead, Hlast. tauto.
Qed.

Lemma next_last_scheduled_date_witness :
  next_scheduled_date "2026-01-06"
    [scheduled "2026-03-02" "9:00 PM"; scheduled "2026-01-05" "8:30 PM";
     scheduled "2026-01-06" "8:30 PM"]
  = Some "2026-01-06"
  ∧ str_le "2026-01-06" "2026-03-02".
Proof.
  split; [reflexivity|].
  apply (proj1 (proj2 (proj2 (next_last_scheduled_date "2026-01-06"
                                [scheduled "2026-03-02" "9:00 PM";
                                 scheduled "2026-01-05" "8:30 PM";
                                 scheduled "2026-01-06" "8:30 PM"])))
           "2026-01-06" "2026-03-02");
    reflexivity.
Defined.

(** ** Status rule: what a status tells *)

Lemma findCalendarConfig_truthy_not_null obj d :
  truthy_json (findCalendarConfig obj d) = negb (is_null (findCalendarConfig obj d)).
Proof.
  pose proof (calendar_candidates_truthy obj d) as Ht.
  rewrite findCalendarConfig_head.
  destruct (calendar_candidates obj d) as [|c cs]; [reflexivity|]. simpl.
  apply Forall_cons in Ht as [Hc _]. rewrite Hc. destruct c; try reflexivity. discriminate.
Qed.

(** X16: a status that was computed tells its cause: TEMPORARILY_CLOSED
    iff the Closure Detector answered [true]; ACTIVE only if the detector
    answered [false], a calendar was located and its expansion returned at
    least one record; UNKNOWN only if the detector answered [false] and no
    calendar was located or its expansion returned no record; and there is
    no fourth status. *)
Theorem processShow_status_cause (cmsData : json) (st : string) :
  processShow_status cmsData = Ret st →
  (st = "TEMPORARILY_CLOSED" ∨ st = "ACTIVE" ∨ st = "UNKNOWN")
  ∧ (st = "TEMPORARILY_CLOSED" ↔ checkTemporarilyClosed cmsData = true)
  ∧ (st = "ACTIVE" →
     checkTemporarilyClosed cmsData = false
     ∧ findCalendarConfig cmsData 0 ≠ JNull
     ∧ ∃ r recs, parseCalendarConfig (findCalendarConfig cmsData 0) = Ret (r :: recs))
  ∧ (st = "UNKNOWN" →
     checkTemporarilyClosed cmsData = false
     ∧ (findCalendarConfig cmsData 0 = JNull
        ∨ parseCalendarConfig (findCalendarConfig cmsData 0) = Ret [])).
Proof.
  unfold processShow_status. intros H. bind_inv H. destruct a as [isClosed recs].
  injection H as <-.
  destruct (collect_Ret_inv _ _ _ Ha) as (-> & Hfound & Hnone).
  rewrite findCalendarConfig_truthy_not_null in Hfound, Hnone.
  unfold currentStatus.
  destruct (checkTemporarilyClosed cmsData).
  - split; [auto|]. split; [tauto|]. split; discriminate.
  - destruct recs as [|r recs]; simpl.
    + split; [auto|]. split; [split; discriminate|]. split; [discriminate|].
      intros _. split; [reflexivity|].
      destruct (is_null (findCalendarConfig cmsData 0)) eqn:E.
      * left. apply is_null_true, E.
      * right. apply Hfound. reflexivity.
    + split; [auto|]. split; [split; discriminate|]. split; [|discriminate].
      intros _. split; [reflexivity|].
      destruct (is_null (findCalendarConfig cmsData 0)) eqn:E.
      * specialize (Hnone eq_refl). discriminate.
      * split; [apply is_null_false, E|]. exists r, recs. apply Hfound. reflexivity.
Qed.

Lemma processShow_status_cause_witness :
  processShow_status (JObj [("calendarConfig", sample_calendar)]) = Ret "ACTIVE"
  ∧ checkTemporarilyClosed (JObj [("calendarConfig", sample_calendar)]) = false.
Proof.
  split; [reflexivity|].
  apply (proj1 (proj2 (proj2 (processShow_status_cause
                                (JObj [("calendarConfig", sample_calendar)]) "ACTIVE"
                                eq_refl)))).
  reflexivity.
Defined.





